(** * A shallow embedding of crow_ecs: storages, join strategies and the
      merge-join driver [Joined::next]. *)

From Stdlib Require Import Arith NArith List Bool Lia.
Import ListNotations.
Open Scope N_scope.

(** ** usize *)

(** [usize] values are modelled as [N] below [USIZE_MAX]; the driver's
    additions check for overflow (the debug-build panic). *)
Definition USIZE_MAX : N := 2 ^ 64 - 1.

(** Checked [usize] addition: [None] is the arithmetic overflow. *)
Definition usize_add (a b : N) : option N :=
  if a + b <=? USIZE_MAX then Some (a + b) else None.

(** [Entity(pub usize)] *)
Definition Entity := N.

(** ** Dense storage: [Storage<T> { inner: Vec<Option<T>> }] *)

Record Storage (V : Type) := mkStorage { inner : list (option V) }.
Arguments mkStorage {V} _.
Arguments inner {V} _.

(** [mem::replace(&mut v[i], x)] for an index known to be in range;
    returns the new vector and the old slot. *)
Fixpoint replace_at {A} (l : list (option A)) (i : nat) (x : option A)
  : list (option A) * option A :=
  match l, i with
  | [], _ => ([], None)
  | y :: t, O => (x :: t, y)
  | y :: t, S i' => let (t', o) := replace_at t i' x in (y :: t', o)
  end.

Module Dense.
Section Ops.
Context {V : Type}.

(** [Storage::new] *)
Definition new : Storage V := mkStorage [].

(** [Storage::clear]: every slot becomes [None], the length is kept. *)
Definition clear (s : Storage V) : Storage V :=
  mkStorage (map (fun _ => None) (inner s)).

(** [Storage::get]: [self.inner.get(idx.0)] then [as_ref]. *)
Definition get (s : Storage V) (idx : Entity) : option V :=
  match nth_error (inner s) (N.to_nat idx) with
  | Some i => i
  | None => None
  end.

(** [Storage::insert]: grow with [None] up to [idx + 1], then
    [mem::replace(&mut self.inner[idx.0], Some(c))]. *)
Definition insert (s : Storage V) (idx : Entity) (c : V) : Storage V * option V :=
  let l := inner s in
  let l := if N.of_nat (length l) <=? idx
           then l ++ repeat None (N.to_nat (idx + 1) - length l)
           else l in
  let (l', old) := replace_at l (N.to_nat idx) (Some c) in
  (mkStorage l', old).

(** [Storage::remove]: [self.inner.get_mut(idx.0).map(Option::take).flatten()];
    out of range nothing changes. *)
Definition remove (s : Storage V) (idx : Entity) : Storage V * option V :=
  let (l', old) := replace_at (inner s) (N.to_nat idx) None in
  (mkStorage l', old).

End Ops.
End Dense.

(** ** Sparse storage: [SparseStorage<T> { inner: BTreeMap<usize, T> }]

    The [BTreeMap] is an association list in ascending key order. *)

Definition smap (V : Type) := list (N * V).

Section SMap.
Context {V : Type}.

(** [BTreeMap::get] *)
Fixpoint sm_get (k : N) (m : smap V) : option V :=
  match m with
  | [] => None
  | (k', v) :: t => if k' =? k then Some v else sm_get k t
  end.

(** [BTreeMap::insert]: replaces the value of an existing key (returning
    the old one), otherwise inserts at the key's place in the order. *)
Fixpoint sm_insert (k : N) (v : V) (m : smap V) : smap V * option V :=
  match m with
  | [] => ([(k, v)], None)
  | (k', v') :: t =>
      if k' <? k then let (t', o) := sm_insert k v t in ((k', v') :: t', o)
      else if k' =? k then ((k, v) :: t, Some v')
      else ((k, v) :: (k', v') :: t, None)
  end.

(** [BTreeMap::remove] *)
Fixpoint sm_remove (k : N) (m : smap V) : smap V * option V :=
  match m with
  | [] => ([], None)
  | (k', v') :: t =>
      if k' =? k then (t, Some v')
      else let (t', o) := sm_remove k t in ((k', v') :: t', o)
  end.

(** [map.range(p..).next()]: the first entry whose key is [>= p]. *)
Fixpoint sm_first_from (p : N) (m : smap V) : option (N * V) :=
  match m with
  | [] => None
  | (k, v) :: t => if p <=? k then Some (k, v) else sm_first_from p t
  end.

(** [map.keys().last()] *)
Fixpoint sm_last_key (m : smap V) : option N :=
  match m with
  | [] => None
  | [(k, _)] => Some k
  | _ :: t => sm_last_key t
  end.

(** The [BTreeMap] invariant: keys strictly ascending. *)
Fixpoint sm_sorted (m : smap V) : bool :=
  match m with
  | [] => true
  | (k, _) :: t =>
      match t with
      | [] => true
      | (k', _) :: _ => (k <? k') && sm_sorted t
      end
  end.

End SMap.

Record SparseStorage (V : Type) := mkSparse { sinner : smap V }.
Arguments mkSparse {V} _.
Arguments sinner {V} _.

Module Sparse.
Section Ops.
Context {V : Type}.

Definition new : SparseStorage V := mkSparse [].

Definition clear (s : SparseStorage V) : SparseStorage V := mkSparse [].

Definition get (s : SparseStorage V) (idx : Entity) : option V :=
  sm_get idx (sinner s).

Definition insert (s : SparseStorage V) (idx : Entity) (c : V)
  : SparseStorage V * option V :=
  let (m, o) := sm_insert idx c (sinner s) in (mkSparse m, o).

Definition remove (s : SparseStorage V) (idx : Entity)
  : SparseStorage V * option V :=
  let (m, o) := sm_remove idx (sinner s) in (mkSparse m, o).

End Ops.
End Sparse.

(** ** The [Join] trait and the [Iterator] methods the driver calls

    A strategy is a state [St] yielding items of type [I]; both methods
    take [&mut self], so they return the updated state. [nth] returns
    [None] when the call panics (an overflowing [+=] on a [usize]
    position). *)

Class Join (St I : Type) := {
  may_skip : St -> N -> St * N;            (** [Join::may_skip(&mut self, curr)] *)
  nth : St -> N -> option (St * option I)  (** [Iterator::nth(&mut self, n)] *)
}.
(** The strategy type determines the instance (an associated type in Rust). *)
#[export] Hint Mode Join ! - : typeclass_instances.

(** [let? p := e in f]: a call [e] that may panic; its panic propagates. *)
Notation "'let?' p ':=' e 'in' f" := (match e with Some p => f | None => None end)
  (at level 200, p pattern, e at level 100, f at level 200, right associativity,
   format "'[v' 'let?'  p  ':='  e  'in' '/' f ']'").

(** [Joined<T> { iter, len, pos }] *)
Record Joined (St : Type) := mkJoined { iter : St; len : N; pos : N }.
Arguments mkJoined {St} _ _ _.
Arguments iter {St} _.
Arguments len {St} _.
Arguments pos {St} _.

(** [Joined::new(iter, len)] *)
Definition Joined_new {St} (it : St) (l : N) : Joined St := mkJoined it l 0.

(** One iteration of the [while self.pos < self.len] loop of
    [Joined::next]:
<<
    let nth = self.iter.may_skip(self.pos);
    self.pos += nth;
    if let Some(item) = self.iter.nth(nth) { return Some(item); }
    else { self.pos += 1; }
>>
    [Finished] is the loop exit ([next] returns [None]), [Overflow] a
    panic: an overflowing [+=] on [pos], or one inside [nth]. *)
Inductive outcome (St I : Type) :=
| Finished
| Overflow
| Advanced (j : Joined St)
| Yielded (j : Joined St) (x : I).
Arguments Finished {St I}.
Arguments Overflow {St I}.
Arguments Advanced {St I} _.
Arguments Yielded {St I} _ _.

Section Driver.
Context {St I : Type} `{Join St I}.

Definition joined_step (j : Joined St) : outcome St I :=
  if pos j <? len j then
    let (it1, k) := may_skip (iter j) (pos j) in
    match usize_add (pos j) k with
    | None => Overflow
    | Some p1 =>
        match nth it1 k with
        | None => Overflow
        | Some (it2, Some x) => Yielded (mkJoined it2 (len j) p1) x
        | Some (it2, None) =>
            match usize_add p1 1 with
            | None => Overflow
            | Some p2 => Advanced (mkJoined it2 (len j) p2)
            end
        end
    end
  else Finished.

End Driver.

(** Where the item sequence of a [Joined] stands after a number of loop
    iterations. *)
Inductive status := Running | Done | Panicked.

Section Run.
Context {St I : Type} `{Join St I}.

(** The items the successive [next] calls return during [fuel] loop
    iterations: [Done] once [next] has returned [None]. *)
Fixpoint joined_run (fuel : nat) (j : Joined St) : list I * status :=
  match fuel with
  | O => ([], Running)
  | S f =>
      match joined_step j with
      | Finished => ([], Done)
      | Overflow => ([], Panicked)
      | Advanced j' => joined_run f j'
      | Yielded j' x => let (xs, st) := joined_run f j' in (x :: xs, st)
      end
  end.

End Run.

(** [Joinable::join] *)
Class Joinable (X St : Type) := join : X -> Joined St.
#[export] Hint Mode Joinable ! - : typeclass_instances.

Definition join_run {X St I} `{Join St I} `{Joinable X St} (fuel : nat) (x : X)
  : list I * status :=
  joined_run fuel (join x).

(** ** Dense strategy: [Iter<'a, T> { slice: &'a [Option<T>] }] *)

Record Iter (V : Type) := mkIter { slice : list (option V) }.
Arguments mkIter {V} _.
Arguments slice {V} _.

(** [slice.iter().take_while(|opt| opt.is_none()).count()] *)
Fixpoint count_leading_none {V} (l : list (option V)) : nat :=
  match l with
  | None :: t => S (count_leading_none t)
  | _ => O
  end.

(** [slice.iter().take_while(|opt| opt.is_some()).count()] *)
Fixpoint count_leading_some {V} (l : list (option V)) : nat :=
  match l with
  | Some _ :: t => S (count_leading_some t)
  | _ => O
  end.

(** [Iter::nth]: [split_at(n + 1)] when [n] is in range, else the empty
    slice. *)
Definition Iter_nth {V} (it : Iter V) (n : N) : Iter V * option V :=
  let l := slice it in
  if n <? N.of_nat (length l) then
    (mkIter (skipn (N.to_nat n + 1) l),
     match nth_error l (N.to_nat n) with Some o => o | None => None end)
  else (mkIter [], None).

#[export] Instance Join_Iter {V} : Join (Iter V) V := {
  may_skip it _curr := (it, N.of_nat (count_leading_none (slice it)));
  nth it n := Some (Iter_nth it n)
}.

(** [impl Joinable for &Storage<T>] *)
#[export] Instance Joinable_Storage {V} : Joinable (Storage V) (Iter V) :=
  fun s => Joined_new (mkIter (inner s)) (N.of_nat (length (inner s))).

(** ** Sparse strategy: [SparseIter<'a, T> { inner, position }] *)

Record SparseIter (V : Type) := mkSparseIter { smap_of : smap V; position : N }.
Arguments mkSparseIter {V} _ _.
Arguments smap_of {V} _.
Arguments position {V} _.

(** [SparseIter::may_skip]: [self.position = curr], then the distance to
    the next key at or after it, or [usize::MAX]. *)
Definition SparseIter_may_skip {V} (it : SparseIter V) (curr : N)
  : SparseIter V * N :=
  let it := mkSparseIter (smap_of it) curr in
  (it, match sm_first_from (position it) (smap_of it) with
       | None => USIZE_MAX
       | Some (k, _) => k - position it
       end).

(** [SparseIter::next]: lookup at [position], then [position += 1],
    which panics past [usize::MAX]. *)
Definition SparseIter_next {V} (it : SparseIter V) : option (SparseIter V * option V) :=
  let item := sm_get (position it) (smap_of it) in
  let? p := usize_add (position it) 1 in
  Some (mkSparseIter (smap_of it) p, item).

(** [SparseIter::nth]: [position += n], then [next]. *)
Definition SparseIter_nth {V} (it : SparseIter V) (n : N) : option (SparseIter V * option V) :=
  let? p := usize_add (position it) n in
  SparseIter_next (mkSparseIter (smap_of it) p).

#[export] Instance Join_SparseIter {V} : Join (SparseIter V) V := {
  may_skip := SparseIter_may_skip;
  nth := SparseIter_nth
}.

(** [impl Joinable for &SparseStorage<T>]: the bound is
    [self.inner.keys().last().copied().unwrap_or(0)]. *)
#[export] Instance Joinable_SparseStorage {V}
  : Joinable (SparseStorage V) (SparseIter V) :=
  fun s => Joined_new (mkSparseIter (sinner s) 0)
                      (match sm_last_key (sinner s) with Some k => k | None => 0 end).

(** ** [Maybe<T>] (maybe.rs) *)

Record Maybe (St : Type) := mkMaybe { maybe_inner : St }.
Arguments mkMaybe {St} _.
Arguments maybe_inner {St} _.

#[export] Instance Join_Maybe {St I} `{Join St I} : Join (Maybe St) (option I) := {
  may_skip m _curr := (m, 0);
  nth m n := let? (s', r) := nth (maybe_inner m) n in Some (mkMaybe s', Some r)
}.

(** [impl Joinable for Maybe<T>]: unbounded. *)
#[export] Instance Joinable_Maybe {St} : Joinable (Maybe St) (Maybe St) :=
  fun m => Joined_new m USIZE_MAX.

(** [Joinable::maybe]: [Maybe::new(self.join().iter)] *)
Definition maybe {X St} `{Joinable X St} (x : X) : Maybe St :=
  mkMaybe (iter (join x)).

(** ** Negation (not.rs) *)

(** [NegatedStorage<'a, T>(&'a Storage<T>)], built by [!&storage]. *)
Record NegatedStorage (V : Type) := neg { neg_storage : Storage V }.
Arguments neg {V} _.
Arguments neg_storage {V} _.

(** [NegatedIter<'a, T>(Iter<'a, T>)] *)
Record NegatedIter (V : Type) := mkNegatedIter { neg_iter : Iter V }.
Arguments mkNegatedIter {V} _.
Arguments neg_iter {V} _.

#[export] Instance Join_NegatedIter {V} : Join (NegatedIter V) unit := {
  may_skip it _curr :=
    (it, N.of_nat (count_leading_some (slice (neg_iter it))));
  nth it n :=
    let (i', r) := Iter_nth (neg_iter it) n in
    Some (mkNegatedIter i', match r with Some _ => None | None => Some tt end)
}.

#[export] Instance Joinable_NegatedStorage {V}
  : Joinable (NegatedStorage V) (NegatedIter V) :=
  fun ns => let st := join (neg_storage ns) in
            Joined_new (mkNegatedIter (iter st)) USIZE_MAX.

(** [NegatedSparseStorage<'a, T>(&'a SparseStorage<T>)], built by [!&storage]. *)
Record NegatedSparseStorage (V : Type) := neg_sparse { neg_sparse_storage : SparseStorage V }.
Arguments neg_sparse {V} _.
Arguments neg_sparse_storage {V} _.

(** [NegatedSparseIter<'a, T>(SparseIter<'a, T>)] *)
Record NegatedSparseIter (V : Type) := mkNegatedSparseIter { neg_siter : SparseIter V }.
Arguments mkNegatedSparseIter {V} _.
Arguments neg_siter {V} _.

#[export] Instance Join_NegatedSparseIter {V} : Join (NegatedSparseIter V) unit := {
  may_skip it _curr := (it, 0);
  nth it n :=
    let? (i', r) := SparseIter_nth (neg_siter it) n in
    Some (mkNegatedSparseIter i', match r with Some _ => None | None => Some tt end)
}.

#[export] Instance Joinable_NegatedSparseStorage {V}
  : Joinable (NegatedSparseStorage V) (NegatedSparseIter V) :=
  fun ns => let st := join (neg_sparse_storage ns) in
            Joined_new (mkNegatedSparseIter (iter st)) USIZE_MAX.

(** ** Draining (drain.rs) *)

(** [Drain<'a, T>(&'a mut Storage<T>, usize)] *)
Record Drain (V : Type) := mkDrain { drain_storage : Storage V; drain_next_id : N }.
Arguments mkDrain {V} _ _.
Arguments drain_storage {V} _.
Arguments drain_next_id {V} _.

(** [Storage::drain]: [Drain(self, 0)] *)
Definition Storage_drain {V} (s : Storage V) : Drain V := mkDrain s 0.

(** [Drain::next]: [self.0.remove(Entity(self.1))], then [self.1 += 1]. *)
Definition Drain_next {V} (d : Drain V) : Drain V * option V :=
  let (s', item) := Dense.remove (drain_storage d) (drain_next_id d) in
  (mkDrain s' (drain_next_id d + 1), item).

(** [Drain::nth]: remove [n] entries, then [next]. *)
Definition Drain_nth {V} (d : Drain V) (n : N) : Drain V * option V :=
  Drain_next (N.iter n (fun d => fst (Drain_next d)) d).

(** The storage once the [&mut] borrow held by a [Drain] ends: [Drain]
    has no [Drop] impl, so it is the storage as the drain left it. *)
Definition Drain_release {V} (d : Drain V) : Storage V := drain_storage d.

(** [SparseDrain<'a, T> { inner: &'a mut BTreeMap<usize, T>, position }] *)
Record SparseDrain (V : Type) := mkSparseDrain { sdrain_map : smap V; sdrain_position : N }.
Arguments mkSparseDrain {V} _ _.
Arguments sdrain_map {V} _.
Arguments sdrain_position {V} _.

(** [SparseStorage::drain] *)
Definition SparseStorage_drain {V} (s : SparseStorage V) : SparseDrain V :=
  mkSparseDrain (sinner s) 0.

(** [SparseDrain::may_skip]: the same code as [SparseIter::may_skip]. *)
Definition SparseDrain_may_skip {V} (d : SparseDrain V) (curr : N) : SparseDrain V * N :=
  let d := mkSparseDrain (sdrain_map d) curr in
  (d, match sm_first_from (sdrain_position d) (sdrain_map d) with
      | None => USIZE_MAX
      | Some (k, _) => k - sdrain_position d
      end).

(** [SparseDrain::next]: [self.inner.remove(&self.position)], then
    [position += 1], which panics past [usize::MAX]. *)
Definition SparseDrain_next {V} (d : SparseDrain V) : option (SparseDrain V * option V) :=
  let (m', item) := sm_remove (sdrain_position d) (sdrain_map d) in
  let? p := usize_add (sdrain_position d) 1 in
  Some (mkSparseDrain m' p, item).

(** [SparseDrain::nth]: [position += n], then [next]. *)
Definition SparseDrain_nth {V} (d : SparseDrain V) (n : N) : option (SparseDrain V * option V) :=
  let? p := usize_add (sdrain_position d) n in
  SparseDrain_next (mkSparseDrain (sdrain_map d) p).

#[export] Instance Join_SparseDrain {V} : Join (SparseDrain V) V := {
  may_skip := SparseDrain_may_skip;
  nth := SparseDrain_nth
}.

(** [impl Joinable for SparseDrain]: the bound is
    [keys().last().copied().map_or(0, |v| v + 1)]. *)
#[export] Instance Joinable_SparseDrain {V} : Joinable (SparseDrain V) (SparseDrain V) :=
  fun d => Joined_new d (match sm_last_key (sdrain_map d) with
                         | Some k => k + 1 | None => 0 end).

(** The storage once a [SparseDrain] is dropped: [Drop] runs
    [self.inner.clear()]. *)
Definition SparseDrain_release {V} (d : SparseDrain V) : SparseStorage V :=
  mkSparse [].

(** ** Static composition (tuple.rs)

    [TupleJoinN] holds the components' strategies and [Joinable for
    (A, B, ..)] bounds the composite by the minimum of the components'
    bounds (tuple.rs has this for N = 2, 3, 4).

    Modelled from the spec: the [Join] impls of the tuple strategies
    ([may_skip], [nth]) and the 5- and 6-ary tuples are not in tuple.rs.
    Following spec 4.5, [may_skip] asks every component at the same
    position and answers the maximum, and [nth] advances every component
    in lockstep and yields only when every component yields (the same
    AND as tuple.rs's [TupleJoinN::next]), calling the components in
    order, so that a panicking component panics the tuple's [nth]; the
    5- and 6-ary bounds are the minimum as for N = 2..4. *)

Record TupleJoin2 (A B : Type) := mkT2 { t2_0 : A; t2_1 : B }.
Arguments mkT2 {A B} _ _.
Arguments t2_0 {A B} _.
Arguments t2_1 {A B} _.

#[export] Instance Join_TupleJoin2 {A B IA IB} `{Join A IA} `{Join B IB}
  : Join (TupleJoin2 A B) (IA * IB) := {
  may_skip t curr :=
    let (a, x) := may_skip (t2_0 t) curr in
    let (b, y) := may_skip (t2_1 t) curr in
    (mkT2 a b, N.max x y);
  nth t n :=
    let? (a, ra) := nth (t2_0 t) n in
    let? (b, rb) := nth (t2_1 t) n in
    Some (mkT2 a b, match ra, rb with Some x, Some y => Some (x, y) | _, _ => None end)
}.

(** [impl Joinable for (A, B)]: [cmp::min(a.len, b.len)] *)
Definition join2 {XA XB A B} `{Joinable XA A} `{Joinable XB B} (x : XA * XB)
  : Joined (TupleJoin2 A B) :=
  let a := join (fst x) in
  let b := join (snd x) in
  Joined_new (mkT2 (iter a) (iter b)) (N.min (len a) (len b)).

Record TupleJoin3 (A B C : Type) := mkT3 { t3_0 : A; t3_1 : B; t3_2 : C }.
Arguments mkT3 {A B C} _ _ _.
Arguments t3_0 {A B C} _.
Arguments t3_1 {A B C} _.
Arguments t3_2 {A B C} _.

#[export] Instance Join_TupleJoin3 {A B C IA IB IC} `{Join A IA} `{Join B IB} `{Join C IC}
  : Join (TupleJoin3 A B C) (IA * IB * IC) := {
  may_skip t curr :=
    let (a, x) := may_skip (t3_0 t) curr in
    let (b, y) := may_skip (t3_1 t) curr in
    let (c, z) := may_skip (t3_2 t) curr in
    (mkT3 a b c, N.max (N.max x y) z);
  nth t n :=
    let? (a, ra) := nth (t3_0 t) n in
    let? (b, rb) := nth (t3_1 t) n in
    let? (c, rc) := nth (t3_2 t) n in
    Some (mkT3 a b c,
     match ra, rb, rc with Some x, Some y, Some z => Some (x, y, z) | _, _, _ => None end)
}.

(** [impl Joinable for (A, B, C)]: [a.len.min(b.len).min(c.len)] *)
Definition join3 {XA XB XC A B C} `{Joinable XA A} `{Joinable XB B} `{Joinable XC C}
  (x : XA * XB * XC) : Joined (TupleJoin3 A B C) :=
  let '(xa, xb, xc) := x in
  let a := join xa in let b := join xb in let c := join xc in
  Joined_new (mkT3 (iter a) (iter b) (iter c)) (N.min (N.min (len a) (len b)) (len c)).

Record TupleJoin4 (A B C D : Type) := mkT4 { t4_0 : A; t4_1 : B; t4_2 : C; t4_3 : D }.
Arguments mkT4 {A B C D} _ _ _ _.
Arguments t4_0 {A B C D} _.
Arguments t4_1 {A B C D} _.
Arguments t4_2 {A B C D} _.
Arguments t4_3 {A B C D} _.

#[export] Instance Join_TupleJoin4 {A B C D IA IB IC ID}
  `{Join A IA} `{Join B IB} `{Join C IC} `{Join D ID}
  : Join (TupleJoin4 A B C D) (IA * IB * IC * ID) := {
  may_skip t curr :=
    let (a, x) := may_skip (t4_0 t) curr in
    let (b, y) := may_skip (t4_1 t) curr in
    let (c, z) := may_skip (t4_2 t) curr in
    let (d, w) := may_skip (t4_3 t) curr in
    (mkT4 a b c d, N.max (N.max (N.max x y) z) w);
  nth t n :=
    let? (a, ra) := nth (t4_0 t) n in
    let? (b, rb) := nth (t4_1 t) n in
    let? (c, rc) := nth (t4_2 t) n in
    let? (d, rd) := nth (t4_3 t) n in
    Some (mkT4 a b c d,
     match ra, rb, rc, rd with
     | Some x, Some y, Some z, Some w => Some (x, y, z, w)
     | _, _, _, _ => None
     end)
}.

(** [impl Joinable for (A, B, C, D)]: [a.len.min(b.len).min(c.len).min(d.len)] *)
Definition join4 {XA XB XC XD A B C D}
  `{Joinable XA A} `{Joinable XB B} `{Joinable XC C} `{Joinable XD D}
  (x : XA * XB * XC * XD) : Joined (TupleJoin4 A B C D) :=
  let '(xa, xb, xc, xd) := x in
  let a := join xa in let b := join xb in let c := join xc in let d := join xd in
  Joined_new (mkT4 (iter a) (iter b) (iter c) (iter d))
             (N.min (N.min (N.min (len a) (len b)) (len c)) (len d)).

Record TupleJoin5 (A B C D E : Type) :=
  mkT5 { t5_0 : A; t5_1 : B; t5_2 : C; t5_3 : D; t5_4 : E }.
Arguments mkT5 {A B C D E} _ _ _ _ _.
Arguments t5_0 {A B C D E} _.
Arguments t5_1 {A B C D E} _.
Arguments t5_2 {A B C D E} _.
Arguments t5_3 {A B C D E} _.
Arguments t5_4 {A B C D E} _.

#[export] Instance Join_TupleJoin5 {A B C D E IA IB IC ID IE}
  `{Join A IA} `{Join B IB} `{Join C IC} `{Join D ID} `{Join E IE}
  : Join (TupleJoin5 A B C D E) (IA * IB * IC * ID * IE) := {
  may_skip t curr :=
    let (a, x) := may_skip (t5_0 t) curr in
    let (b, y) := may_skip (t5_1 t) curr in
    let (c, z) := may_skip (t5_2 t) curr in
    let (d, w) := may_skip (t5_3 t) curr in
    let (e, u) := may_skip (t5_4 t) curr in
    (mkT5 a b c d e, N.max (N.max (N.max (N.max x y) z) w) u);
  nth t n :=
    let? (a, ra) := nth (t5_0 t) n in
    let? (b, rb) := nth (t5_1 t) n in
    let? (c, rc) := nth (t5_2 t) n in
    let? (d, rd) := nth (t5_3 t) n in
    let? (e, re) := nth (t5_4 t) n in
    Some (mkT5 a b c d e,
     match ra, rb, rc, rd, re with
     | Some x, Some y, Some z, Some w, Some u => Some (x, y, z, w, u)
     | _, _, _, _, _ => None
     end)
}.

Definition join5 {XA XB XC XD XE A B C D E}
  `{Joinable XA A} `{Joinable XB B} `{Joinable XC C} `{Joinable XD D} `{Joinable XE E}
  (x : XA * XB * XC * XD * XE) : Joined (TupleJoin5 A B C D E) :=
  let '(xa, xb, xc, xd, xe) := x in
  let a := join xa in let b := join xb in let c := join xc in
  let d := join xd in let e := join xe in
  Joined_new (mkT5 (iter a) (iter b) (iter c) (iter d) (iter e))
             (N.min (N.min (N.min (N.min (len a) (len b)) (len c)) (len d)) (len e)).

Record TupleJoin6 (A B C D E F : Type) :=
  mkT6 { t6_0 : A; t6_1 : B; t6_2 : C; t6_3 : D; t6_4 : E; t6_5 : F }.
Arguments mkT6 {A B C D E F} _ _ _ _ _ _.
Arguments t6_0 {A B C D E F} _.
Arguments t6_1 {A B C D E F} _.
Arguments t6_2 {A B C D E F} _.
Arguments t6_3 {A B C D E F} _.
Arguments t6_4 {A B C D E F} _.
Arguments t6_5 {A B C D E F} _.

#[export] Instance Join_TupleJoin6 {A B C D E F IA IB IC ID IE IF}
  `{Join A IA} `{Join B IB} `{Join C IC} `{Join D ID} `{Join E IE} `{Join F IF}
  : Join (TupleJoin6 A B C D E F) (IA * IB * IC * ID * IE * IF) := {
  may_skip t curr :=
    let (a, x) := may_skip (t6_0 t) curr in
    let (b, y) := may_skip (t6_1 t) curr in
    let (c, z) := may_skip (t6_2 t) curr in
    let (d, w) := may_skip (t6_3 t) curr in
    let (e, u) := may_skip (t6_4 t) curr in
    let (f, v) := may_skip (t6_5 t) curr in
    (mkT6 a b c d e f, N.max (N.max (N.max (N.max (N.max x y) z) w) u) v);
  nth t n :=
    let? (a, ra) := nth (t6_0 t) n in
    let? (b, rb) := nth (t6_1 t) n in
    let? (c, rc) := nth (t6_2 t) n in
    let? (d, rd) := nth (t6_3 t) n in
    let? (e, re) := nth (t6_4 t) n in
    let? (f, rf) := nth (t6_5 t) n in
    Some (mkT6 a b c d e f,
     match ra, rb, rc, rd, re, rf with
     | Some x, Some y, Some z, Some w, Some u, Some v => Some (x, y, z, w, u, v)
     | _, _, _, _, _, _ => None
     end)
}.

Definition join6 {XA XB XC XD XE XF A B C D E F}
  `{Joinable XA A} `{Joinable XB B} `{Joinable XC C} `{Joinable XD D}
  `{Joinable XE E} `{Joinable XF F}
  (x : XA * XB * XC * XD * XE * XF) : Joined (TupleJoin6 A B C D E F) :=
  let '(xa, xb, xc, xd, xe, xf) := x in
  let a := join xa in let b := join xb in let c := join xc in
  let d := join xd in let e := join xe in let f := join xf in
  Joined_new (mkT6 (iter a) (iter b) (iter c) (iter d) (iter e) (iter f))
             (N.min (N.min (N.min (N.min (N.min (len a) (len b)) (len c)) (len d)) (len e))
                    (len f)).

(** ** Operation sequences on a storage (the differential test of spec 8) *)

Inductive op (V : Type) :=
| Insert (idx : Entity) (c : V)
| Remove (idx : Entity)
| Get (idx : Entity)
| Clear.
Arguments Insert {V} _ _.
Arguments Remove {V} _.
Arguments Get {V} _.
Arguments Clear {V}.

(** What an operation returns: an [Option<T>], or [()] for [clear]. *)
Inductive op_result (V : Type) := RVal (o : option V) | RUnit.
Arguments RVal {V} _.
Arguments RUnit {V}.

Definition dense_apply {V} (s : Storage V) (o : op V) : Storage V * op_result V :=
  match o with
  | Insert idx c => let (s', r) := Dense.insert s idx c in (s', RVal r)
  | Remove idx => let (s', r) := Dense.remove s idx in (s', RVal r)
  | Get idx => (s, RVal (Dense.get s idx))
  | Clear => (Dense.clear s, RUnit)
  end.

Definition sparse_apply {V} (s : SparseStorage V) (o : op V)
  : SparseStorage V * op_result V :=
  match o with
  | Insert idx c => let (s', r) := Sparse.insert s idx c in (s', RVal r)
  | Remove idx => let (s', r) := Sparse.remove s idx in (s', RVal r)
  | Get idx => (s, RVal (Sparse.get s idx))
  | Clear => (Sparse.clear s, RUnit)
  end.

(** Apply a sequence of operations, collecting their results. *)
Fixpoint dense_run {V} (ops : list (op V)) (s : Storage V) : Storage V * list (op_result V) :=
  match ops with
  | [] => (s, [])
  | o :: rest =>
      let (s1, r) := dense_apply s o in
      let (s2, rs) := dense_run rest s1 in (s2, r :: rs)
  end.

Fixpoint sparse_run {V} (ops : list (op V)) (s : SparseStorage V)
  : SparseStorage V * list (op_result V) :=
  match ops with
  | [] => (s, [])
  | o :: rest =>
      let (s1, r) := sparse_apply s o in
      let (s2, rs) := sparse_run rest s1 in (s2, r :: rs)
  end.

(** ** Mutable joins *)

(** [IterMut]: a [slice::IterMut] over the slots not yet passed. *)
Record IterMut (V : Type) := mkIterMut { iter_rest : list (option V) }.

Arguments mkIterMut {V} _.
Arguments iter_rest {V} _.

(** [IterMut::nth]: [slice::IterMut::nth(n)] (skip [n] slots, take the
    next one, or exhaust the iterator), then [map(Option::as_mut).flatten()]. *)
Definition IterMut_nth {V} (it : IterMut V) (n : N) : IterMut V * option V :=
  match skipn (N.to_nat n) (iter_rest it) with
  | [] => (mkIterMut [], None)
  | x :: rest => (mkIterMut rest, x)
  end.

(** [IterMut::may_skip]: the leading [None] slots of [into_slice()]. *)
#[export] Instance Join_IterMut {V} : Join (IterMut V) V := {
  may_skip it _curr := (it, N.of_nat (count_leading_none (iter_rest it)));
  nth it n := Some (IterMut_nth it n)
}.

(** [impl Joinable for &mut Storage<T>] *)
Definition Storage_join_mut {V} (s : Storage V) : Joined (IterMut V) :=
  Joined_new (mkIterMut (inner s)) (N.of_nat (length (inner s))).

(** [SparseIterMut]: the entries a [Peekable<btree_map::IterMut>] has
    not yet returned, and [position]. *)
Record SparseIterMut (V : Type) :=
  mkSparseIterMut { peekable : smap V; mposition : N }.

Arguments mkSparseIterMut {V} _ _.
Arguments peekable {V} _.
Arguments mposition {V} _.

(** [SparseIterMut::may_skip]: [position = curr], then the peeked key
    minus [curr]. The subtraction panics when the peeked key is below
    [curr]; that hint is [usize::MAX + 1], which the checked addition of
    [Joined::next] turns into a panic as well. *)
Definition SparseIterMut_may_skip {V} (it : SparseIterMut V) (curr : N)
  : SparseIterMut V * N :=
  (mkSparseIterMut (peekable it) curr,
   match peekable it with
   | [] => USIZE_MAX
   | (k, _) :: _ => if curr <=? k then k - curr else USIZE_MAX + 1
   end).

(** The [while] loop of [SparseIterMut::next]: drop the entries whose key
    is below [position]. *)
Fixpoint skip_below {V} (p : N) (l : smap V) : smap V :=
  match l with
  | [] => []
  | (k, v) :: t => if k <? p then skip_below p t else l
  end.

(** [SparseIterMut::next]: take the peeked entry if its key is
    [position], then [position += 1], which panics past [usize::MAX]. *)
Definition SparseIterMut_next {V} (it : SparseIterMut V)
  : option (SparseIterMut V * option V) :=
  let p := mposition it in
  let (rest, item) :=
    match skip_below p (peekable it) with
    | (k, v) :: t => if k =? p then (t, Some v) else ((k, v) :: t, None)
    | [] => ([], None)
    end in
  let? p' := usize_add p 1 in
  Some (mkSparseIterMut rest p', item).

(** [SparseIterMut::nth]: [position += n], then [next]. *)
Definition SparseIterMut_nth {V} (it : SparseIterMut V) (n : N)
  : option (SparseIterMut V * option V) :=
  let? p := usize_add (mposition it) n in
  SparseIterMut_next (mkSparseIterMut (peekable it) p).

#[export] Instance Join_SparseIterMut {V} : Join (SparseIterMut V) V := {
  may_skip := SparseIterMut_may_skip;
  nth := SparseIterMut_nth
}.

(** [impl Joinable for &mut SparseStorage<T>]: the bound is
    [keys().last().copied().unwrap_or(0)]. *)
Definition SparseStorage_join_mut {V} (t : SparseStorage V) : Joined (SparseIterMut V) :=
  Joined_new (mkSparseIterMut (sinner t) 0)
    (match sm_last_key (sinner t) with Some k => k | None => 0 end).

(** [&'a mut SparseStorage<T>], the [Joinable] value of that impl. *)
Record SparseStorageMut (V : Type) := sparse_mut { sparse_mut_storage : SparseStorage V }.
Arguments sparse_mut {V} _.
Arguments sparse_mut_storage {V} _.

#[export] Instance Joinable_SparseStorageMut {V}
  : Joinable (SparseStorageMut V) (SparseIterMut V) :=
  fun x => SparseStorage_join_mut (sparse_mut_storage x).

(** ** [Entities] *)

(** [struct Entities]: a joinable returning the currently iterated
    [Entity]. *)
Inductive Entities := EntitiesUnit.

(** [EntitiesIter((0..).map(Entity))]: the range is kept as its start. *)
Record EntitiesIter := mkEntitiesIter { range_start : N }.

(** [EntitiesIter::nth]: [Map<RangeFrom<usize>, _>::nth(n)] steps the
    range [n + 1] times; it returns [start + n] and leaves the start at
    [start + n + 1]. A step past [usize::MAX] panics ([Step::forward]). *)
Definition EntitiesIter_nth (it : EntitiesIter) (n : N) : option (EntitiesIter * option Entity) :=
  let? plus_n := usize_add (range_start it) n in
  let? start := usize_add plus_n 1 in
  Some (mkEntitiesIter start, Some plus_n).

#[export] Instance Join_EntitiesIter : Join EntitiesIter Entity := {
  may_skip it _curr := (it, 0);
  nth := EntitiesIter_nth
}.

(** [impl Joinable for Entities]: unbounded, [len = usize::MAX]. *)
#[export] Instance Joinable_Entities : Joinable Entities EntitiesIter :=
  fun _ => Joined_new (mkEntitiesIter 0) USIZE_MAX.

(** The values of a dense slot vector in index order: what a join over
    the storage alone is expected to yield. *)
Fixpoint present_values {V} (l : list (option V)) : list V :=
  match l with
  | [] => []
  | None :: t => present_values t
  | Some v :: t => v :: present_values t
  end.

(** The first key of a sparse map. *)
Definition sm_hd_key {V} (m : smap V) : option N :=
  match m with [] => None | (k, _) :: _ => Some k end.

(** * Proofs *)

(** ** Storage lemmas *)

Lemma replace_at_nth_other {A} (l : list (option A)) i x k :
  k <> i -> nth_error (fst (replace_at l i x)) k = nth_error l k.
Proof.
  revert i k. induction l as [|y t IH]; intros i k Hk; [reflexivity|].
  destruct i as [|i']; simpl.
  - destruct k; [congruence|reflexivity].
  - destruct (replace_at t i' x) as [t' o] eqn:E. simpl.
    destruct k as [|k]; [reflexivity|].
    simpl. specialize (IH i' k). rewrite E in IH. apply IH. lia.
Qed.

Lemma get_grow {V} (l : list (option V)) n k :
  match nth_error (l ++ repeat None n) k with Some i => i | None => None end =
  match nth_error l k with Some i => i | None => None end.
Proof.
  destruct (Nat.lt_ge_cases k (length l)) as [Hk|Hk].
  - rewrite nth_error_app1 by exact Hk. reflexivity.
  - rewrite nth_error_app2 by exact Hk.
    assert (nth_error l k = None) as -> by (apply nth_error_None; exact Hk).
    destruct (Nat.lt_ge_cases (k - length l) n) as [Hn|Hn].
    + rewrite nth_error_repeat by exact Hn. reflexivity.
    + assert (nth_error (repeat (@None V) n) (k - length l) = None) as ->
        by (apply nth_error_None; rewrite repeat_length; exact Hn).
      reflexivity.
Qed.

Lemma sm_get_insert_other {V} (m : smap V) id j v :
  j <> id -> sm_get j (fst (sm_insert id v m)) = sm_get j m.
Proof.
  intros Hj. induction m as [|[k' v'] t IH]; simpl.
  - destruct (N.eqb_spec id j); [congruence|reflexivity].
  - destruct (k' <? id).
    + destruct (sm_insert id v t) as [t' o] eqn:E. simpl in *.
      rewrite IH. reflexivity.
    + destruct (N.eqb_spec k' id) as [->|Hne]; simpl.
      * destruct (N.eqb_spec id j); [congruence|reflexivity].
      * destruct (N.eqb_spec id j); [congruence|reflexivity].
Qed.

Lemma sm_get_remove_other {V} (m : smap V) id j :
  j <> id -> sm_get j (fst (sm_remove id m)) = sm_get j m.
Proof.
  intros Hj. induction m as [|[k' v'] t IH]; simpl; [reflexivity|].
  destruct (N.eqb_spec k' id) as [->|Hne].
  - destruct (N.eqb_spec id j); [congruence|reflexivity].
  - destruct (sm_remove id t) as [t' o] eqn:E. simpl in *.
    rewrite IH. reflexivity.
Qed.

(** ** Sorted maps: [range(p..).next()] is the least key at or after [p] *)

Lemma sm_sorted_tail {V} k v (t : smap V) :
  sm_sorted ((k, v) :: t) = true -> sm_sorted t = true.
Proof.
  simpl. destruct t as [|[k' v'] t']; [reflexivity|].
  intros H. apply andb_prop in H. apply H.
Qed.

Lemma sm_sorted_head_lt {V} k v (t : smap V) :
  sm_sorted ((k, v) :: t) = true -> forall k', In k' (map fst t) -> k < k'.
Proof.
  revert k v. induction t as [|[k1 v1] t IH]; intros k v H k' Hin; [destruct Hin|].
  simpl in H. apply andb_prop in H as [Hlt Hs]. apply N.ltb_lt in Hlt.
  destruct Hin as [<-|Hin]; [exact Hlt|].
  assert (k1 < k') by (apply (IH k1 v1); [exact Hs|exact Hin]). lia.
Qed.

Lemma sm_first_from_some {V} (m : smap V) p k v :
  sm_sorted m = true -> sm_first_from p m = Some (k, v) ->
  In k (map fst m) /\ p <= k /\
  (forall k', In k' (map fst m) -> p <= k' -> k <= k').
Proof.
  induction m as [|[k1 v1] t IH]; intros Hs Hf; [discriminate|].
  simpl in Hf. destruct (N.leb_spec p k1) as [Hp|Hp].
  - injection Hf as Hk Hv. subst k1 v1.
    split; [left; reflexivity|split; [exact Hp|]].
    intros k' [Heq|Hin] _; [subst k'; apply N.le_refl|].
    pose proof (sm_sorted_head_lt _ _ _ Hs k' Hin). lia.
  - destruct (IH (sm_sorted_tail _ _ _ Hs) Hf) as [Hin [Hpk Hmin]].
    split; [right; exact Hin|split; [exact Hpk|]].
    intros k' [Heq|Hin'] Hk'.
    + subst k'. simpl in Hk'. lia.
    + apply Hmin; assumption.
Qed.

Lemma sm_first_from_none {V} (m : smap V) p :
  sm_first_from p m = None -> forall k, In k (map fst m) -> k < p.
Proof.
  induction m as [|[k1 v1] t IH]; intros Hf k Hin; [destruct Hin|].
  simpl in Hf. destruct (N.leb_spec p k1) as [Hp|Hp]; [discriminate|].
  destruct Hin as [Heq|Hin]; [subst k; exact Hp|]. apply IH; assumption.
Qed.

(** The two outcomes of [next_key_at_or_after p - p] as the spec phrases
    it: the distance to the least key at or after [p], or unbounded. *)
Lemma sparse_hint_spec {V} (m : smap V) p :
  sm_sorted m = true ->
  let k := match sm_first_from p m with
           | None => USIZE_MAX | Some (key, _) => key - p end in
  (exists key, In key (map fst m) /\ p <= key /\
     (forall key', In key' (map fst m) -> p <= key' -> key <= key') /\
     k = key - p)
  \/ ((forall key, In key (map fst m) -> key < p) /\ k = USIZE_MAX).
Proof.
  intros Hs. simpl. destruct (sm_first_from p m) as [[key v]|] eqn:E.
  - left. exists key. destruct (sm_first_from_some m p key v Hs E) as (H1 & H2 & H3).
    repeat split; assumption.
  - right. split; [apply sm_first_from_none; exact E|reflexivity].
Qed.

Lemma count_leading_none_spec {V} (l : list (option V)) i :
  (i < count_leading_none l)%nat -> nth_error l i = Some None.
Proof.
  revert i. induction l as [|[x|] t IH]; intros i Hi; simpl in Hi; [lia|lia|].
  destruct i; [reflexivity|]. simpl. apply IH. lia.
Qed.

(** ** Simulations of the driver *)

Section Simulations.
Context {A IA B IB : Type} `{Join A IA} `{Join B IB}.



End Simulations.

Section Diagonal.
Context {A I : Type} `{Join A I}.


End Diagonal.



(** ** Termination of [(&s, !&s)] *)

Section Monotone.
Context {St I : Type} `{Join St I}.

(** Once [next] has returned [None], more fuel changes nothing. *)
Lemma joined_run_done_more (n d : nat) (j : Joined St) xs :
  joined_run n j = (xs, Done) -> joined_run (n + d) j = (xs, Done).
Proof.
  revert j xs. induction n as [|n IH]; intros j xs Hr; [discriminate|].
  simpl in Hr |- *. destruct (joined_step j) as [| |j'|j' x].
  - exact Hr.
  - exact Hr.
  - apply IH, Hr.
  - destruct (joined_run n j') as [ys st] eqn:E. injection Hr as <- ->.
    rewrite (IH j' ys E). reflexivity.
Qed.

(** Once [next] has panicked, more fuel changes nothing. *)
Lemma joined_run_panicked_more (n d : nat) (j : Joined St) xs :
  joined_run n j = (xs, Panicked) -> joined_run (n + d) j = (xs, Panicked).
Proof.
  revert j xs. induction n as [|n IH]; intros j xs Hr; [discriminate|].
  simpl in Hr |- *. destruct (joined_step j) as [| |j'|j' x].
  - exact Hr.
  - exact Hr.
  - apply IH, Hr.
  - destruct (joined_run n j') as [ys st] eqn:E. injection Hr as <- ->.
    rewrite (IH j' ys E). reflexivity.
Qed.

End Monotone.

Lemma count_leading_none_le {V} (l : list (option V)) : (count_leading_none l <= length l)%nat.
Proof. induction l as [|[x|] t IH]; simpl; lia. Qed.

Lemma count_leading_some_le {V} (l : list (option V)) : (count_leading_some l <= length l)%nat.
Proof. induction l as [|[x|] t IH]; simpl; lia. Qed.


Lemma sm_last_key_in {V} (m : smap V) k : sm_last_key m = Some k -> In k (map fst m).
Proof.
  induction m as [|[k1 v1] t IH]; intros Hl; [discriminate|].
  destruct t as [|[k2 v2] t'].
  - injection Hl as <-. left. reflexivity.
  - right. apply IH. exact Hl.
Qed.

Lemma sm_last_key_cons {V} k v (t : smap V) :
  t <> [] -> sm_last_key ((k, v) :: t) = sm_last_key t.
Proof. destruct t; [congruence|reflexivity]. Qed.

Lemma sm_last_key_some {V} (m : smap V) : m <> [] -> exists k, sm_last_key m = Some k.
Proof.
  induction m as [|[k v] t IH]; intros H; [congruence|].
  destruct t as [|x t']; [exists k; reflexivity|].
  rewrite sm_last_key_cons by discriminate. apply IH. discriminate.
Qed.


Lemma sm_get_not_in {V} (m : smap V) k : ~ In k (map fst m) -> sm_get k m = None.
Proof.
  induction m as [|[k1 v1] t IH]; simpl; intros Hn; [reflexivity|].
  destruct (N.eqb_spec k1 k) as [->|_]; [exfalso; apply Hn; left; reflexivity|].
  apply IH. intros Hin. apply Hn. right. exact Hin.
Qed.


Lemma sm_last_key_max {V} (m : smap V) l :
  sm_sorted m = true -> sm_last_key m = Some l -> forall k, In k (map fst m) -> k <= l.
Proof.
  induction m as [|[k1 v1] t IH]; intros Hs Hl k Hin; [destruct Hin|].
  destruct t as [|[k2 v2] t'].
  - simpl in Hl. injection Hl as <-. destruct Hin as [<-|[]]. simpl. lia.
  - assert (H2 : k2 <= l).
    { apply IH; [exact (sm_sorted_tail _ _ _ Hs)|exact Hl|left; reflexivity]. }
    destruct Hin as [<-|Hin].
    + pose proof (sm_sorted_head_lt _ _ _ Hs k2 (or_introl eq_refl)). simpl in *. lia.
    + apply IH; [exact (sm_sorted_tail _ _ _ Hs)|exact Hl|exact Hin].
Qed.


(** * The claims *)

(** ** C2 *)

(** C2: for the tuple strategies of arity 2 to 6, the composite's skip
    hint at a position is the maximum of the components' hints at that
    position, and the composite's upper bound is the minimum of the
    components' bounds. *)
Theorem tuple_skip_max_len_min :
  (forall A B IA IB (HA : Join A IA) (HB : Join B IB) (a : A) (b : B) curr,
     snd (may_skip (mkT2 a b) curr)
     = N.max (snd (may_skip a curr)) (snd (may_skip b curr)))
  /\ (forall XA XB A B (JA : Joinable XA A) (JB : Joinable XB B) (xa : XA) (xb : XB),
     len (join2 (xa, xb)) = N.min (len (join xa)) (len (join xb)))
  /\ (forall A B C IA IB IC (HA : Join A IA) (HB : Join B IB) (HC : Join C IC)
        (a : A) (b : B) (c : C) curr,
     snd (may_skip (mkT3 a b c) curr)
     = N.max (N.max (snd (may_skip a curr)) (snd (may_skip b curr)))
             (snd (may_skip c curr)))
  /\ (forall XA XB XC A B C (JA : Joinable XA A) (JB : Joinable XB B)
        (JC : Joinable XC C) (xa : XA) (xb : XB) (xc : XC),
     len (join3 (xa, xb, xc))
     = N.min (N.min (len (join xa)) (len (join xb))) (len (join xc)))
  /\ (forall A B C D IA IB IC ID (HA : Join A IA) (HB : Join B IB) (HC : Join C IC)
        (HD : Join D ID) (a : A) (b : B) (c : C) (d : D) curr,
     snd (may_skip (mkT4 a b c d) curr)
     = N.max (N.max (N.max (snd (may_skip a curr)) (snd (may_skip b curr)))
                    (snd (may_skip c curr)))
             (snd (may_skip d curr)))
  /\ (forall XA XB XC XD A B C D (JA : Joinable XA A) (JB : Joinable XB B)
        (JC : Joinable XC C) (JD : Joinable XD D) (xa : XA) (xb : XB) (xc : XC) (xd : XD),
     len (join4 (xa, xb, xc, xd))
     = N.min (N.min (N.min (len (join xa)) (len (join xb))) (len (join xc))) (len (join xd)))
  /\ (forall A B C D E IA IB IC ID IE (HA : Join A IA) (HB : Join B IB) (HC : Join C IC)
        (HD : Join D ID) (HE : Join E IE) (a : A) (b : B) (c : C) (d : D) (e : E) curr,
     snd (may_skip (mkT5 a b c d e) curr)
     = N.max (N.max (N.max (N.max (snd (may_skip a curr)) (snd (may_skip b curr)))
                           (snd (may_skip c curr)))
                    (snd (may_skip d curr)))
             (snd (may_skip e curr)))
  /\ (forall XA XB XC XD XE A B C D E (JA : Joinable XA A) (JB : Joinable XB B)
        (JC : Joinable XC C) (JD : Joinable XD D) (JE : Joinable XE E)
        (xa : XA) (xb : XB) (xc : XC) (xd : XD) (xe : XE),
     len (join5 (xa, xb, xc, xd, xe))
     = N.min (N.min (N.min (N.min (len (join xa)) (len (join xb))) (len (join xc)))
                    (len (join xd)))
             (len (join xe)))
  /\ (forall A B C D E F IA IB IC ID IE IF (HA : Join A IA) (HB : Join B IB)
        (HC : Join C IC) (HD : Join D ID) (HE : Join E IE) (HF : Join F IF)
        (a : A) (b : B) (c : C) (d : D) (e : E) (f : F) curr,
     snd (may_skip (mkT6 a b c d e f) curr)
     = N.max (N.max (N.max (N.max (N.max (snd (may_skip a curr)) (snd (may_skip b curr)))
                                  (snd (may_skip c curr)))
                           (snd (may_skip d curr)))
                    (snd (may_skip e curr)))
             (snd (may_skip f curr)))
  /\ (forall XA XB XC XD XE XF A B C D E F (JA : Joinable XA A) (JB : Joinable XB B)
        (JC : Joinable XC C) (JD : Joinable XD D) (JE : Joinable XE E) (JF : Joinable XF F)
        (xa : XA) (xb : XB) (xc : XC) (xd : XD) (xe : XE) (xf : XF),
     len (join6 (xa, xb, xc, xd, xe, xf))
     = N.min (N.min (N.min (N.min (N.min (len (join xa)) (len (join xb))) (len (join xc)))
                           (len (join xd)))
                    (len (join xe)))
             (len (join xf))).
Proof.
  repeat split; intros; simpl;
    repeat match goal with
           | |- context [let (_, _) := ?p in _] => destruct p
           end;
    reflexivity.
Qed.

(** ** C3 *)

(** C3 (code bug): the bound a sparse storage's join reports is its
    greatest key, not the greatest key plus one; for the storage
    [{0 => 7}] it is 0, while a sparse drain of the same map reports 1
    and a dense storage holding [Some 7] at 0 reports 1. *)
Theorem sparse_join_bound_is_greatest_key :
  len (join (mkSparse [(0, 7)])) = 0
  /\ len (join (SparseStorage_drain (mkSparse [(0, 7)]))) = 1
  /\ len (join (mkStorage [Some 7])) = 1.
Proof. repeat split; reflexivity. Qed.

(** ** C4 *)

(** C4: the skip hints are sound.  A dense strategy whose slice starts at
    position [p] reports a run of positions [p .. p + hint - 1] that all
    hold no value; a sparse strategy (shared iterator or drain) stalled at
    [p] reports the distance from [p] to the least key at or after [p], or
    [usize::MAX] when every key is below [p]. *)
Theorem skip_hint_sound {V} (m : smap V) (Hs : sm_sorted m = true) :
  (forall (s : Storage V) (p curr i : N),
     i < snd (may_skip (mkIter (skipn (N.to_nat p) (inner s))) curr) ->
     Dense.get s (p + i) = None)
  /\ (forall q p : N,
     let k := snd (may_skip (mkSparseIter m q) p) in
     (exists key, In key (map fst m) /\ p <= key /\
        (forall key', In key' (map fst m) -> p <= key' -> key <= key') /\
        k = key - p)
     \/ ((forall key, In key (map fst m) -> key < p) /\ k = USIZE_MAX))
  /\ (forall q p : N,
     let k := snd (may_skip (mkSparseDrain m q) p) in
     (exists key, In key (map fst m) /\ p <= key /\
        (forall key', In key' (map fst m) -> p <= key' -> key <= key') /\
        k = key - p)
     \/ ((forall key, In key (map fst m) -> key < p) /\ k = USIZE_MAX)).
Proof.
  split; [|split].
  - intros s p curr i Hi. simpl in Hi.
    assert (Hc : (N.to_nat i < count_leading_none (skipn (N.to_nat p) (inner s)))%nat) by lia.
    apply count_leading_none_spec in Hc. rewrite nth_error_skipn in Hc.
    unfold Dense.get. rewrite N2Nat.inj_add, Hc. reflexivity.
  - intros q p. exact (sparse_hint_spec m p Hs).
  - intros q p. exact (sparse_hint_spec m p Hs).
Qed.

(** ** C10 *)

(** C10: inserting or removing at [id] leaves [get j] unchanged for every
    other [j], in dense storage (also when the insertion grows the vector)
    and in sparse storage. *)
Theorem insert_remove_local {V} (s : Storage V) (t : SparseStorage V)
  (id j : Entity) (v : V) (Hj : j <> id) :
  Dense.get (fst (Dense.insert s id v)) j = Dense.get s j
  /\ Dense.get (fst (Dense.remove s id)) j = Dense.get s j
  /\ Sparse.get (fst (Sparse.insert t id v)) j = Sparse.get t j
  /\ Sparse.get (fst (Sparse.remove t id)) j = Sparse.get t j.
Proof.
  assert (Hn : N.to_nat j <> N.to_nat id) by (intro E; apply Hj, N2Nat.inj, E).
  split; [|split; [|split]].
  - unfold Dense.insert, Dense.get.
    destruct (N.of_nat (length (inner s)) <=? id).
    + destruct (replace_at (inner s ++ _) (N.to_nat id) (Some v)) as [l' o] eqn:E.
      simpl. match type of E with replace_at ?l _ _ = _ =>
        pose proof (replace_at_nth_other l (N.to_nat id) (Some v) (N.to_nat j) Hn) as R end.
      rewrite E in R. simpl in R. rewrite R. apply get_grow.
    + destruct (replace_at (inner s) (N.to_nat id) (Some v)) as [l' o] eqn:E.
      simpl. pose proof (replace_at_nth_other (inner s) (N.to_nat id) (Some v) (N.to_nat j) Hn) as R.
      rewrite E in R. simpl in R. rewrite R. reflexivity.
  - unfold Dense.remove, Dense.get.
    destruct (replace_at (inner s) (N.to_nat id) None) as [l' o] eqn:E.
    simpl. pose proof (replace_at_nth_other (inner s) (N.to_nat id) None (N.to_nat j) Hn) as R.
    rewrite E in R. simpl in R. rewrite R. reflexivity.
  - unfold Sparse.insert, Sparse.get.
    pose proof (sm_get_insert_other (sinner t) id j v Hj) as R.
    destruct (sm_insert id v (sinner t)) as [m o]. exact R.
  - unfold Sparse.remove, Sparse.get.
    pose proof (sm_get_remove_other (sinner t) id j Hj) as R.
    destruct (sm_remove id (sinner t)) as [m o]. exact R.
Qed.

(** ** C7 *)


(** ** C8 *)


(** ** C1 *)

Lemma sparse_0_1_loop (q : N) fuel :
  joined_run fuel (mkJoined (mkSparseIter [(0, 7); (1, 12)] q) 1 0) = (repeat 7 fuel, Running).
Proof.
  revert q. induction fuel as [|f IH]; intros q; [reflexivity|].
  simpl. rewrite IH. reflexivity.
Qed.

(** C1 (code bug): joining the sparse storage [{0 => 7, 1 => 12}] yields
    7 at every loop iteration and never 12 ([Joined::next] does not move
    [pos] past a yielded item, and [SparseIter] re-reads at [pos]); the
    sparse storage [{0 => 7}] yields nothing (its bound is its greatest
    key, 0). *)
Theorem sparse_join_repeats_first_item :
  (forall fuel, joined_run fuel (join (mkSparse [(0, 7); (1, 12)])) = (repeat 7 fuel, Running))
  /\ joined_run 3 (join (mkSparse [(0, 7)])) = ([], Done).
Proof.
  split; [|reflexivity].
  intros fuel. apply sparse_0_1_loop.
Qed.

(** ** C5 *)

(** C5 (code bug): a dense [Drain] dropped after one [next] leaves the
    rest of the storage in place ([Drain] has no [Drop] impl), and one
    consumed until its first [None] stops at the first hole; a dropped
    [SparseDrain] always leaves its storage empty. *)
Theorem dense_drain_leaves_entries :
  (let (d, x) := Drain_next (Storage_drain (mkStorage [Some 7; Some 12])) in
   x = Some 7 /\ Dense.get (Drain_release d) 1 = Some 12)
  /\ (let (d, x) := Drain_next (Storage_drain (mkStorage [None; Some 7])) in
      x = None /\ Dense.get (Drain_release d) 1 = Some 7)
  /\ (forall V (d : SparseDrain V) k, Sparse.get (SparseDrain_release d) k = None).
Proof.
  split; [split; reflexivity|split; [split; reflexivity|]].
  intros V d k. reflexivity.
Qed.

(** ** C6 *)

(** C6 (code bug): after the single operation [insert(Entity(0), 7)] on a
    new dense and a new sparse storage, the operation results agree but the
    joins do not: the dense join yields [7], the sparse join nothing. *)
Theorem dense_sparse_join_differ :
  snd (dense_run [Insert 0 7] Dense.new) = snd (sparse_run [Insert 0 7] Sparse.new)
  /\ joined_run 3 (join (fst (dense_run [Insert 0 7] Dense.new))) = ([7], Done)
  /\ joined_run 3 (join (fst (sparse_run [Insert 0 7] Sparse.new))) = ([], Done).
Proof. repeat split; reflexivity. Qed.

(** ** C9 *)

(** C9 (code bug): joining the drain of the sparse storage
    [{0 => 7, 1 => 12}] yields 7 and 12 and then, at [pos = 1] below the
    bound 2, [may_skip] answers [usize::MAX] (both keys are gone), and
    [pos += usize::MAX] overflows. *)
Theorem sparse_drain_join_overflows :
  let j0 := join (SparseStorage_drain (mkSparse [(0, 7); (1, 12)])) in
  let j2 := mkJoined (mkSparseDrain (V := N) [] 2) 2 1 in
  joined_step j0 = Yielded (mkJoined (mkSparseDrain [(1, 12)] 1) 2 0) 7
  /\ joined_step (mkJoined (mkSparseDrain [(1, 12)] 1) 2 0) = Yielded j2 12
  /\ pos j2 < len j2
  /\ snd (may_skip (iter j2) (pos j2)) = USIZE_MAX
  /\ USIZE_MAX < pos j2 + USIZE_MAX
  /\ joined_step j2 = Overflow
  /\ joined_run 3 j0 = ([7; 12], Panicked).
Proof. repeat split; vm_compute; reflexivity. Qed.

(** ** Witnesses *)

(** [skip_hint_sound] at the sorted map [{1 => 12, 4 => 0}]. *)
Lemma skip_hint_sound_witness :
  sm_sorted (V := N) [(1, 12); (4, 0)] = true
  /\ (forall (s : Storage N) (p curr i : N),
        i < snd (may_skip (mkIter (skipn (N.to_nat p) (inner s))) curr) ->
        Dense.get s (p + i) = None)
  /\ (forall q p : N,
        let k := snd (may_skip (mkSparseIter [(1, 12); (4, 0)] q) p) in
        (exists key, In key (map fst [(1, 12); (4, 0)]) /\ p <= key /\
           (forall key', In key' (map fst [(1, 12); (4, 0)]) -> p <= key' -> key <= key') /\
           k = key - p)
        \/ ((forall key, In key (map fst [(1, 12); (4, 0)]) -> key < p) /\ k = USIZE_MAX))
  /\ (forall q p : N,
        let k := snd (may_skip (mkSparseDrain [(1, 12); (4, 0)] q) p) in
        (exists key, In key (map fst [(1, 12); (4, 0)]) /\ p <= key /\
           (forall key', In key' (map fst [(1, 12); (4, 0)]) -> p <= key' -> key <= key') /\
           k = key - p)
        \/ ((forall key, In key (map fst [(1, 12); (4, 0)]) -> key < p) /\ k = USIZE_MAX)).
Proof.
  split; [reflexivity|].
  apply (skip_hint_sound [(1, 12); (4, 0)]). reflexivity.
Defined.


(** [insert_remove_local] at [id = 0], [j = 1]. *)
Lemma insert_remove_local_witness :
  (1 : Entity) <> 0
  /\ Dense.get (fst (Dense.insert (mkStorage [Some 7; Some 12]) 0 5)) 1
     = Dense.get (mkStorage [Some 7; Some 12]) 1
  /\ Dense.get (fst (Dense.remove (mkStorage [Some 7; Some 12]) 0)) 1
     = Dense.get (mkStorage [Some 7; Some 12]) 1
  /\ Sparse.get (fst (Sparse.insert (mkSparse [(1, 12)]) 0 5)) 1
     = Sparse.get (mkSparse [(1, 12)]) 1
  /\ Sparse.get (fst (Sparse.remove (mkSparse [(1, 12)]) 0)) 1
     = Sparse.get (mkSparse [(1, 12)]) 1.
Proof.
  split; [discriminate|].
  apply (insert_remove_local (mkStorage [Some 7; Some 12]) (mkSparse [(1, 12)]) 0 1 5).
  discriminate.
Defined.


(** ** Counterexamples *)



(** * Further properties of the storages and strategies *)

(** ** Slot vectors *)

Lemma replace_at_length {A} (l : list (option A)) i x :
  length (fst (replace_at l i x)) = length l.
Proof.
  revert i. induction l as [|y t IH]; intros i; [reflexivity|].
  destruct i as [|i']; simpl; [reflexivity|].
  specialize (IH i'). destruct (replace_at t i' x). simpl in *. lia.
Qed.

Lemma replace_at_nth_same {A} (l : list (option A)) i x :
  (i < length l)%nat -> nth_error (fst (replace_at l i x)) i = Some x.
Proof.
  revert i. induction l as [|y t IH]; intros i Hi; simpl in Hi; [lia|].
  destruct i as [|i']; simpl; [reflexivity|].
  specialize (IH i'). destruct (replace_at t i' x). simpl in *. apply IH. lia.
Qed.

Lemma replace_at_old {A} (l : list (option A)) i x :
  snd (replace_at l i x) = match nth_error l i with Some o => o | None => None end.
Proof.
  revert i. induction l as [|y t IH]; intros i; [destruct i; reflexivity|].
  destruct i as [|i']; simpl; [reflexivity|].
  specialize (IH i'). destruct (replace_at t i' x). exact IH.
Qed.

Lemma N_to_nat_neq (a b : N) : a <> b -> N.to_nat a <> N.to_nat b.
Proof. intros H E. apply H, N2Nat.inj, E. Qed.

(** The slot vector [Storage::insert] writes into: long enough for [idx],
    with the same entries as before. *)
Lemma dense_insert_grown {V} (s : Storage V) (idx : Entity) :
  let l := inner s in
  let l' := if N.of_nat (length l) <=? idx
            then l ++ repeat None (N.to_nat (idx + 1) - length l) else l in
  length l' = Nat.max (length l) (N.to_nat idx + 1) /\
  (forall k, match nth_error l' k with Some i => i | None => None end =
             match nth_error l k with Some i => i | None => None end).
Proof.
  cbv zeta. destruct (N.leb_spec (N.of_nat (length (inner s))) idx) as [Hle|Hlt].
  - split.
    + rewrite length_app, repeat_length. lia.
    + intros k. apply get_grow.
  - split; [lia|reflexivity].
Qed.

Lemma dense_get_insert_same {V} (s : Storage V) idx c :
  Dense.get (fst (Dense.insert s idx c)) idx = Some c /\
  snd (Dense.insert s idx c) = Dense.get s idx.
Proof.
  destruct (dense_insert_grown s idx) as [Hl Hg]. revert Hl Hg. cbv zeta.
  unfold Dense.insert, Dense.get.
  set (l' := if N.of_nat (length (inner s)) <=? idx then _ else _).
  intros Hl Hg.
  pose proof (replace_at_nth_same l' (N.to_nat idx) (Some c)) as Hs.
  pose proof (replace_at_old l' (N.to_nat idx) (Some c)) as Ho.
  destruct (replace_at l' (N.to_nat idx) (Some c)) as [l2 o]. simpl in *.
  split.
  - rewrite Hs by lia. reflexivity.
  - rewrite Ho. apply Hg.
Qed.

Lemma dense_get_insert_other {V} (s : Storage V) idx c j :
  j <> idx -> Dense.get (fst (Dense.insert s idx c)) j = Dense.get s j.
Proof.
  intros Hj. destruct (dense_insert_grown s idx) as [_ Hg]. revert Hg. cbv zeta.
  unfold Dense.insert, Dense.get.
  set (l' := if N.of_nat (length (inner s)) <=? idx then _ else _).
  intros Hg.
  pose proof (replace_at_nth_other l' (N.to_nat idx) (Some c) (N.to_nat j)
                (N_to_nat_neq _ _ Hj)) as Hs.
  destruct (replace_at l' (N.to_nat idx) (Some c)) as [l2 o]. simpl in *.
  rewrite Hs. apply Hg.
Qed.

Lemma dense_get_remove_same {V} (s : Storage V) idx :
  Dense.get (fst (Dense.remove s idx)) idx = None /\
  snd (Dense.remove s idx) = Dense.get s idx.
Proof.
  unfold Dense.remove, Dense.get.
  pose proof (replace_at_nth_same (inner s) (N.to_nat idx) None) as Hs.
  pose proof (replace_at_old (inner s) (N.to_nat idx) None) as Ho.
  pose proof (replace_at_length (inner s) (N.to_nat idx) None) as Hl.
  destruct (replace_at (inner s) (N.to_nat idx) None) as [l2 o]. simpl in *.
  split; [|exact Ho].
  destruct (Nat.lt_ge_cases (N.to_nat idx) (length (inner s))) as [Hi|Hi].
  - rewrite Hs by exact Hi. reflexivity.
  - assert (nth_error l2 (N.to_nat idx) = None) as -> by (apply nth_error_None; lia).
    reflexivity.
Qed.

Lemma dense_get_remove_other {V} (s : Storage V) idx j :
  j <> idx -> Dense.get (fst (Dense.remove s idx)) j = Dense.get s j.
Proof.
  intros Hj. unfold Dense.remove, Dense.get.
  pose proof (replace_at_nth_other (inner s) (N.to_nat idx) None (N.to_nat j)
                (N_to_nat_neq _ _ Hj)) as Hs.
  destruct (replace_at (inner s) (N.to_nat idx) None) as [l2 o]. simpl in *.
  rewrite Hs. reflexivity.
Qed.

Lemma dense_get_clear {V} (s : Storage V) j : Dense.get (Dense.clear s) j = None.
Proof.
  unfold Dense.get, Dense.clear. simpl.
  rewrite nth_error_map. destruct (nth_error (inner s) (N.to_nat j)); reflexivity.
Qed.

(** ** The sorted-map model of [BTreeMap] *)

Lemma sm_sorted_cons {V} k v (t : smap V) :
  sm_sorted ((k, v) :: t) = true <->
  sm_sorted t = true /\ (forall k', sm_hd_key t = Some k' -> k < k').
Proof.
  destruct t as [|[k1 v1] t]; simpl.
  - split; [intros _; split; [reflexivity|discriminate]|reflexivity].
  - rewrite andb_true_iff, N.ltb_lt. split.
    + intros [Hlt Hs]. split; [exact Hs|]. intros k' E. injection E as <-. exact Hlt.
    + intros [Hs Hk]. split; [apply Hk; reflexivity|exact Hs].
Qed.

Lemma sm_hd_key_in {V} (m : smap V) k : sm_hd_key m = Some k -> In k (map fst m).
Proof. destruct m as [|[k1 v1] t]; simpl; [discriminate|]. intros E. left. congruence. Qed.

Lemma sm_hd_key_insert {V} k v (t : smap V) :
  sm_hd_key (fst (sm_insert k v t)) = Some k \/
  sm_hd_key (fst (sm_insert k v t)) = sm_hd_key t.
Proof.
  destruct t as [|[k1 v1] t]; simpl; [left; reflexivity|].
  destruct (k1 <? k).
  - destruct (sm_insert k v t). right. reflexivity.
  - destruct (k1 =? k); left; reflexivity.
Qed.

Lemma sm_hd_key_remove {V} k (t : smap V) k' :
  sm_hd_key (fst (sm_remove k t)) = Some k' -> In k' (map fst t).
Proof.
  destruct t as [|[k1 v1] t]; simpl; [discriminate|].
  destruct (k1 =? k).
  - intros H. right. apply sm_hd_key_in, H.
  - destruct (sm_remove k t). simpl. intros E. left. congruence.
Qed.

Lemma sm_insert_sorted {V} k v (m : smap V) :
  sm_sorted m = true -> sm_sorted (fst (sm_insert k v m)) = true.
Proof.
  induction m as [|[k1 v1] t IH]; intros Hs; [reflexivity|].
  pose proof Hs as Hs'. apply sm_sorted_cons in Hs' as [Ht Hh].
  simpl. destruct (N.ltb_spec k1 k) as [Hlt|Hge].
  - pose proof (sm_hd_key_insert k v t) as Hd.
    destruct (sm_insert k v t) as [t' o] eqn:E. simpl in IH, Hd |- *.
    apply (proj2 (sm_sorted_cons k1 v1 t')). split; [apply IH, Ht|].
    intros k' Hk'. destruct Hd as [Hd|Hd]; rewrite Hd in Hk'.
    + injection Hk' as <-. exact Hlt.
    + apply Hh, Hk'.
  - destruct (N.eqb_spec k1 k) as [->|Hne]; simpl.
    + apply (proj2 (sm_sorted_cons k v1 t)). split; [exact Ht|exact Hh].
    + apply (proj2 (sm_sorted_cons k v ((k1, v1) :: t))). split; [exact Hs|].
      intros k' E. injection E as <-. lia.
Qed.

Lemma sm_remove_sorted {V} k (m : smap V) :
  sm_sorted m = true -> sm_sorted (fst (sm_remove k m)) = true.
Proof.
  induction m as [|[k1 v1] t IH]; intros Hs; [reflexivity|].
  pose proof Hs as Hs'. apply sm_sorted_cons in Hs' as [Ht _].
  simpl. destruct (k1 =? k); [exact Ht|].
  pose proof (sm_hd_key_remove k t) as Hd.
  destruct (sm_remove k t) as [t' o] eqn:E. simpl in IH, Hd |- *.
  apply (proj2 (sm_sorted_cons k1 v1 t')). split; [apply IH, Ht|].
  intros k' Hk'. apply (sm_sorted_head_lt k1 v1 t Hs), Hd, Hk'.
Qed.

Lemma sm_get_insert_same {V} k v (m : smap V) : sm_get k (fst (sm_insert k v m)) = Some v.
Proof.
  induction m as [|[k1 v1] t IH]; simpl; [rewrite N.eqb_refl; reflexivity|].
  destruct (N.ltb_spec k1 k) as [Hlt|Hge].
  - destruct (sm_insert k v t) as [t' o]. simpl in *.
    destruct (N.eqb_spec k1 k); [lia|exact IH].
  - destruct (k1 =? k); simpl; rewrite N.eqb_refl; reflexivity.
Qed.

Lemma sm_insert_old {V} k v (m : smap V) :
  sm_sorted m = true -> snd (sm_insert k v m) = sm_get k m.
Proof.
  induction m as [|[k1 v1] t IH]; intros Hs; [reflexivity|].
  simpl. destruct (N.ltb_spec k1 k) as [Hlt|Hge].
  - destruct (sm_insert k v t) as [t' o] eqn:E. simpl.
    destruct (N.eqb_spec k1 k); [lia|].
    specialize (IH (sm_sorted_tail _ _ _ Hs)). exact IH.
  - destruct (N.eqb_spec k1 k) as [->|Hne]; [reflexivity|].
    symmetry. apply sm_get_not_in. intros Hin.
    pose proof (sm_sorted_head_lt k1 v1 t Hs k Hin). lia.
Qed.

Lemma sm_remove_old {V} k (m : smap V) : snd (sm_remove k m) = sm_get k m.
Proof.
  induction m as [|[k1 v1] t IH]; simpl; [reflexivity|].
  destruct (k1 =? k); [reflexivity|].
  destruct (sm_remove k t) as [t' o]. exact IH.
Qed.

Lemma sm_get_remove_same {V} k (m : smap V) :
  sm_sorted m = true -> sm_get k (fst (sm_remove k m)) = None.
Proof.
  induction m as [|[k1 v1] t IH]; intros Hs; [reflexivity|].
  simpl. destruct (N.eqb_spec k1 k) as [->|Hne].
  - apply sm_get_not_in. intros Hin.
    pose proof (sm_sorted_head_lt k v1 t Hs k Hin). lia.
  - specialize (IH (sm_sorted_tail _ _ _ Hs)).
    destruct (sm_remove k t) as [t' o]. simpl in *.
    destruct (N.eqb_spec k1 k); [congruence|exact IH].
Qed.

(** ** Dense and sparse storages under the same operations *)

Lemma apply_agree {V} (s : Storage V) (t : SparseStorage V) (o : op V) :
  sm_sorted (sinner t) = true ->
  (forall k, Dense.get s k = Sparse.get t k) ->
  snd (dense_apply s o) = snd (sparse_apply t o) /\
  sm_sorted (sinner (fst (sparse_apply t o))) = true /\
  (forall k, Dense.get (fst (dense_apply s o)) k = Sparse.get (fst (sparse_apply t o)) k).
Proof.
  intros Hs Hg. destruct o as [idx c|idx|idx|]; simpl.
  - pose proof (dense_get_insert_same s idx c) as [Hd1 Hd2].
    pose proof (dense_get_insert_other s idx c) as Hd3.
    unfold Sparse.insert, Sparse.get in *.
    pose proof (sm_get_insert_same idx c (sinner t)) as Hs1.
    pose proof (sm_insert_old idx c (sinner t) Hs) as Hs2.
    pose proof (fun j => sm_get_insert_other (sinner t) idx j c) as Hs3.
    pose proof (sm_insert_sorted idx c (sinner t) Hs) as Hs4.
    destruct (Dense.insert s idx c) as [s' r]. simpl in *.
    destruct (sm_insert idx c (sinner t)) as [m' r']. simpl in *.
    split; [congruence|]. split; [exact Hs4|].
    intros k. destruct (N.eq_dec k idx) as [->|Hne]; [congruence|].
    rewrite Hd3, Hs3 by exact Hne. apply Hg.
  - pose proof (dense_get_remove_same s idx) as [Hd1 Hd2].
    pose proof (dense_get_remove_other s idx) as Hd3.
    unfold Sparse.remove, Sparse.get in *.
    pose proof (sm_get_remove_same idx (sinner t) Hs) as Hs1.
    pose proof (sm_remove_old idx (sinner t)) as Hs2.
    pose proof (sm_get_remove_other (sinner t) idx) as Hs3.
    pose proof (sm_remove_sorted idx (sinner t) Hs) as Hs4.
    destruct (Dense.remove s idx) as [s' r]. simpl in *.
    destruct (sm_remove idx (sinner t)) as [m' r']. simpl in *.
    split; [congruence|]. split; [exact Hs4|].
    intros k. destruct (N.eq_dec k idx) as [->|Hne]; [congruence|].
    rewrite Hd3, Hs3 by exact Hne. apply Hg.
  - split; [rewrite Hg; reflexivity|]. split; [exact Hs|exact Hg].
  - split; [reflexivity|]. split; [reflexivity|].
    intros k. rewrite dense_get_clear. reflexivity.
Qed.

Lemma run_agree {V} (ops : list (op V)) (s : Storage V) (t : SparseStorage V) :
  sm_sorted (sinner t) = true ->
  (forall k, Dense.get s k = Sparse.get t k) ->
  snd (dense_run ops s) = snd (sparse_run ops t) /\
  sm_sorted (sinner (fst (sparse_run ops t))) = true /\
  (forall k, Dense.get (fst (dense_run ops s)) k = Sparse.get (fst (sparse_run ops t)) k).
Proof.
  revert s t. induction ops as [|o rest IH]; intros s t Hs Hg; simpl.
  - split; [reflexivity|]. split; [exact Hs|exact Hg].
  - pose proof (apply_agree s t o Hs Hg) as [H1 [H2 H3]].
    destruct (dense_apply s o) as [s1 r]. destruct (sparse_apply t o) as [t1 r'].
    simpl in *. subst r'.
    pose proof (IH s1 t1 H2 H3) as [K1 [K2 K3]].
    destruct (dense_run rest s1) as [s2 rs]. destruct (sparse_run rest t1) as [t2 rs'].
    simpl in *. subst rs'. split; [reflexivity|]. split; [exact K2|exact K3].
Qed.

(** ** Joining a single dense storage *)

Lemma present_values_first {V} (sl : list (option V)) :
  (count_leading_none sl < length sl)%nat ->
  exists v, nth_error sl (count_leading_none sl) = Some (Some v) /\
            present_values sl = v :: present_values (skipn (count_leading_none sl + 1) sl).
Proof.
  induction sl as [|[x|] t IH]; simpl; intros H; [lia| |].
  - exists x. split; reflexivity.
  - destruct (IH ltac:(lia)) as [v [E1 E2]]. exists v. split; assumption.
Qed.

Lemma present_values_none {V} (sl : list (option V)) :
  count_leading_none sl = length sl -> present_values sl = [].
Proof.
  induction sl as [|[x|] t IH]; simpl; intros H; [reflexivity|discriminate|].
  apply IH. lia.
Qed.

Lemma run_dense_exhausted {V} (l p : N) :
  l < USIZE_MAX ->
  exists fuel, joined_run fuel (mkJoined (mkIter (@nil (option V))) l p) = ([], Done).
Proof.
  intros Hmax. remember (N.to_nat (l - p)) as n eqn:En. revert p En.
  induction n as [|n IH]; intros p En.
  - exists 1%nat. simpl joined_run. unfold joined_step. simpl pos. simpl len.
    destruct (N.ltb_spec p l); [lia|reflexivity].
  - destruct (IH (p + 1) ltac:(lia)) as [f Hf]. exists (S f).
    simpl joined_run. unfold joined_step. simpl pos. simpl len. simpl iter.
    destruct (N.ltb_spec p l) as [Hlt|]; [|lia].
    simpl may_skip. cbv beta iota.
    assert (Ep1 : usize_add p 0 = Some p).
    { unfold usize_add. destruct (N.leb_spec (p + 0) USIZE_MAX); [f_equal; lia|lia]. }
    rewrite Ep1. simpl nth. unfold Iter_nth. simpl slice. simpl.
    assert (Ep2 : usize_add p 1 = Some (p + 1)).
    { unfold usize_add. destruct (N.leb_spec (p + 1) USIZE_MAX); [reflexivity|lia]. }
    rewrite Ep2. exact Hf.
Qed.

Lemma run_dense_single {V} (sl : list (option V)) (p l : N) :
  p + N.of_nat (length sl) <= l -> l < USIZE_MAX ->
  exists fuel, joined_run fuel (mkJoined (mkIter sl) l p) = (present_values sl, Done).
Proof.
  remember (length sl) as n eqn:En. revert sl p En.
  induction n as [n IH] using lt_wf_ind. intros sl p En Hl Hmax.
  pose proof (count_leading_none_le sl) as Hle.
  set (k := count_leading_none sl) in *.
  destruct (Nat.lt_ge_cases k (length sl)) as [Hin|Hout].
  - destruct (present_values_first sl Hin) as [v [Ev Epv]]. fold k in Ev, Epv.
    assert (Hlen' : length (skipn (k + 1) sl) = (n - (k + 1))%nat)
      by (rewrite length_skipn; lia).
    destruct (IH (length (skipn (k + 1) sl)) ltac:(lia) (skipn (k + 1) sl)
                 (p + N.of_nat k) eq_refl ltac:(lia) Hmax) as [f Hf].
    exists (S f). rewrite Epv.
    simpl joined_run. unfold joined_step. simpl pos. simpl len. simpl iter.
    destruct (N.ltb_spec p l) as [Hlt|]; [|lia].
    simpl may_skip. cbv beta iota. fold k.
    assert (Ep1 : usize_add p (N.of_nat k) = Some (p + N.of_nat k)).
    { unfold usize_add. destruct (N.leb_spec (p + N.of_nat k) USIZE_MAX); [reflexivity|lia]. }
    rewrite Ep1. simpl nth. unfold Iter_nth. simpl slice.
    destruct (N.ltb_spec (N.of_nat k) (N.of_nat (length sl))); [|lia].
    rewrite Nat2N.id, Ev. rewrite Hf. reflexivity.
  - assert (Hk : k = length sl) by lia.
    rewrite (present_values_none sl Hk).
    destruct (N.ltb_spec p l) as [Hlt|Hge].
    + destruct (run_dense_exhausted (V:=V) l (p + N.of_nat k + 1) Hmax) as [f Hf].
      exists (S f).
      simpl joined_run. unfold joined_step. simpl pos. simpl len. simpl iter.
      destruct (N.ltb_spec p l); [|lia].
      simpl may_skip. cbv beta iota. fold k.
      assert (Ep1 : usize_add p (N.of_nat k) = Some (p + N.of_nat k)).
      { unfold usize_add. destruct (N.leb_spec (p + N.of_nat k) USIZE_MAX); [reflexivity|lia]. }
      rewrite Ep1. simpl nth. unfold Iter_nth. simpl slice.
      destruct (N.ltb_spec (N.of_nat k) (N.of_nat (length sl))); [lia|].
      assert (Ep2 : usize_add (p + N.of_nat k) 1 = Some (p + N.of_nat k + 1)).
      { unfold usize_add. destruct (N.leb_spec (p + N.of_nat k + 1) USIZE_MAX); [reflexivity|lia]. }
      rewrite Ep2. exact Hf.
    + exists 1%nat. simpl joined_run. unfold joined_step. simpl pos. simpl len.
      destruct (N.ltb_spec p l); [lia|reflexivity].
Qed.

(** ** Draining *)

Lemma Drain_skip_spec {V} (d : Drain V) (n : N) :
  let d' := N.iter n (fun d => fst (Drain_next d)) d in
  drain_next_id d' = drain_next_id d + n /\
  forall k, Dense.get (drain_storage d') k =
            if (drain_next_id d <=? k) && (k <? drain_next_id d + n) then None
            else Dense.get (drain_storage d) k.
Proof.
  cbv zeta. induction n as [|n IH] using N.peano_ind.
  - simpl. split; [lia|]. intros k.
    destruct (N.leb_spec (drain_next_id d) k), (N.ltb_spec k (drain_next_id d + 0));
      simpl; try reflexivity; lia.
  - rewrite N.iter_succ.
    destruct (N.iter n (fun d => fst (Drain_next d)) d) as [s c] eqn:E.
    destruct IH as [Hc Hg]. simpl in Hc, Hg.
    unfold Drain_next. simpl.
    pose proof (dense_get_remove_same s c) as [Hr1 _].
    pose proof (dense_get_remove_other s c) as Hr2.
    destruct (Dense.remove s c) as [s' o]. simpl in *.
    split; [lia|]. intros k.
    destruct (N.eq_dec k c) as [->|Hne].
    + rewrite Hr1. destruct (N.leb_spec (drain_next_id d) c), (N.ltb_spec c (drain_next_id d + N.succ n));
        simpl; try reflexivity; lia.
    + rewrite (Hr2 k Hne), Hg.
      destruct (N.leb_spec (drain_next_id d) k), (N.ltb_spec k (drain_next_id d + n)),
        (N.ltb_spec k (drain_next_id d + N.succ n)); simpl; try reflexivity; lia.
Qed.

(** ** Unbounded joins *)

Section Bounded.
(** [M] is [usize::MAX] as a [nat], kept abstract so that no proof
    computes it. *)
Variable M : nat.
Hypothesis HM : N.of_nat M = USIZE_MAX.

Lemma run_entities (n st : nat) :
  (st <= M)%nat ->
  joined_run n (mkJoined (mkEntitiesIter (N.of_nat st)) USIZE_MAX 0)
  = if (st + n <=? M)%nat then (map N.of_nat (seq st n), Running)
    else (map N.of_nat (seq st (M - st)), Panicked).
Proof.
  revert st. induction n as [|n IH]; intros st Hst.
  - destruct (Nat.leb_spec (st + 0) M); [reflexivity|lia].
  - simpl joined_run. unfold joined_step. simpl pos. simpl len. simpl iter.
    replace (0 <? USIZE_MAX) with true by reflexivity.
    simpl may_skip. cbv beta iota.
    replace (usize_add 0 0) with (Some 0) by reflexivity.
    simpl nth. unfold EntitiesIter_nth. simpl range_start.
    assert (E0 : usize_add (N.of_nat st) 0 = Some (N.of_nat st)).
    { unfold usize_add. destruct (N.leb_spec (N.of_nat st + 0) USIZE_MAX); [f_equal; lia|lia]. }
    rewrite E0.
    destruct (Nat.eq_dec st M) as [->|Hne].
    + assert (E1 : usize_add (N.of_nat M) 1 = None).
      { unfold usize_add. destruct (N.leb_spec (N.of_nat M + 1) USIZE_MAX); [lia|reflexivity]. }
      rewrite E1. destruct (Nat.leb_spec (M + S n) M); [lia|].
      rewrite Nat.sub_diag. reflexivity.
    + assert (E1 : usize_add (N.of_nat st) 1 = Some (N.of_nat (S st))).
      { unfold usize_add. destruct (N.leb_spec (N.of_nat st + 1) USIZE_MAX); [f_equal; lia|lia]. }
      rewrite E1. cbv beta iota. rewrite (IH (S st)) by lia.
      replace (S st + n <=? M)%nat with (st + S n <=? M)%nat by (f_equal; lia).
      destruct (st + S n <=? M)%nat; [reflexivity|].
      replace (M - st)%nat with (S (M - S st)) by lia. reflexivity.
Qed.

Lemma run_maybe_sparse {V} (n : nat) (m : smap V) (q : nat) :
  (q <= M)%nat ->
  joined_run n (mkJoined (mkMaybe (mkSparseIter m (N.of_nat q))) USIZE_MAX 0)
  = if (q + n <=? M)%nat then (map (fun i => sm_get (N.of_nat i) m) (seq q n), Running)
    else (map (fun i => sm_get (N.of_nat i) m) (seq q (M - q)), Panicked).
Proof.
  revert q. induction n as [|n IH]; intros q Hq.
  - destruct (Nat.leb_spec (q + 0) M); [reflexivity|lia].
  - simpl joined_run. unfold joined_step. simpl pos. simpl len. simpl iter.
    replace (0 <? USIZE_MAX) with true by reflexivity.
    simpl may_skip. cbv beta iota.
    replace (usize_add 0 0) with (Some 0) by reflexivity.
    simpl nth. unfold SparseIter_nth, SparseIter_next. simpl position. simpl smap_of.
    assert (E0 : usize_add (N.of_nat q) 0 = Some (N.of_nat q)).
    { unfold usize_add. destruct (N.leb_spec (N.of_nat q + 0) USIZE_MAX); [f_equal; lia|lia]. }
    rewrite E0.
    destruct (Nat.eq_dec q M) as [->|Hne].
    + assert (E1 : usize_add (N.of_nat M) 1 = None).
      { unfold usize_add. destruct (N.leb_spec (N.of_nat M + 1) USIZE_MAX); [lia|reflexivity]. }
      rewrite E1. destruct (Nat.leb_spec (M + S n) M); [lia|].
      rewrite Nat.sub_diag. reflexivity.
    + assert (E1 : usize_add (N.of_nat q) 1 = Some (N.of_nat (S q))).
      { unfold usize_add. destruct (N.leb_spec (N.of_nat q + 1) USIZE_MAX); [f_equal; lia|lia]. }
      rewrite E1. cbv beta iota. rewrite (IH (S q)) by lia.
      replace (S q + n <=? M)%nat with (q + S n <=? M)%nat by (f_equal; lia).
      destruct (q + S n <=? M)%nat; [reflexivity|].
      replace (M - q)%nat with (S (M - S q)) by lia. reflexivity.
Qed.

End Bounded.

Lemma run_maybe_dense {V} (n : nat) (sl : list (option V)) :
  joined_run n (mkJoined (mkMaybe (mkIter sl)) USIZE_MAX 0)
  = (map (fun i => Dense.get (mkStorage sl) (N.of_nat i)) (seq 0 n), Running).
Proof.
  revert sl. induction n as [|n IH]; intros sl; [reflexivity|].
  simpl joined_run. unfold joined_step. simpl pos. simpl len. simpl iter.
  replace (0 <? USIZE_MAX) with true by reflexivity.
  simpl may_skip. cbv beta iota.
  replace (usize_add 0 0) with (Some 0) by reflexivity.
  simpl nth. unfold Iter_nth. simpl slice.
  change (seq 0 (S n)) with (0%nat :: seq 1 n).
  rewrite <- seq_shift. cbn [map]. rewrite map_map.
  destruct sl as [|o t].
  - simpl. rewrite IH. f_equal. f_equal. apply map_ext. intros i.
    unfold Dense.get. simpl. rewrite !nth_error_nil. reflexivity.
  - simpl. rewrite IH. f_equal. f_equal. apply map_ext. intros i.
    unfold Dense.get. change (N.pos (Pos.of_succ_nat i)) with (N.of_nat (S i)).
    rewrite !Nat2N.id. reflexivity.
Qed.


Lemma SparseDrain_nth_spec {V} (d : SparseDrain V) (n : N) :
  sm_sorted (sdrain_map d) = true ->
  match SparseDrain_nth d n with
  | None => USIZE_MAX <= sdrain_position d + n
  | Some (d', r) =>
      sdrain_position d + n < USIZE_MAX /\
      r = sm_get (sdrain_position d + n) (sdrain_map d) /\
      sdrain_position d' = sdrain_position d + n + 1 /\
      (forall k, sm_get k (sdrain_map d') =
                 if k =? sdrain_position d + n then None else sm_get k (sdrain_map d))
  end.
Proof.
  intros Hs. destruct d as [m p]. simpl in Hs |- *.
  unfold SparseDrain_nth, SparseDrain_next. unfold usize_add at 1. simpl.
  destruct (N.leb_spec (p + n) USIZE_MAX) as [Hn|Hn]; [|lia].
  pose proof (sm_remove_old (p + n) m) as H1.
  pose proof (sm_get_remove_same (p + n) m Hs) as H2.
  pose proof (sm_get_remove_other m (p + n)) as H3.
  destruct (sm_remove (p + n) m) as [m' o]. simpl in *.
  unfold usize_add. destruct (N.leb_spec (p + n + 1) USIZE_MAX) as [H1n|H1n]; [|lia].
  split; [lia|]. split; [exact H1|]. split; [reflexivity|]. intros k.
  destruct (N.eqb_spec k (p + n)) as [->|Hne]; [exact H2|apply H3, Hne].
Qed.

(** ** Mutable joins *)

Lemma skipn_nth_error {A} (l : list A) n x :
  nth_error l n = Some x -> skipn n l = x :: skipn (S n) l.
Proof.
  revert n. induction l as [|y t IH]; intros n H; [destruct n; discriminate|].
  destruct n as [|n]; simpl in *; [congruence|]. apply IH, H.
Qed.

Lemma IterMut_nth_Iter_nth {V} (l : list (option V)) n :
  iter_rest (fst (IterMut_nth (mkIterMut l) n)) = slice (fst (Iter_nth (mkIter l) n)) /\
  snd (IterMut_nth (mkIterMut l) n) = snd (Iter_nth (mkIter l) n).
Proof.
  unfold IterMut_nth, Iter_nth. simpl.
  destruct (N.ltb_spec n (N.of_nat (length l))) as [Hin|Hout].
  - destruct (nth_error l (N.to_nat n)) as [x|] eqn:Ex;
      [|apply nth_error_None in Ex; lia].
    rewrite (skipn_nth_error l _ x Ex). simpl.
    rewrite Nat.add_1_r. split; reflexivity.
  - rewrite skipn_all2 by lia. split; reflexivity.
Qed.

Lemma run_iter_mut {V} (fuel : nat) (l : list (option V)) (L p : N) :
  joined_run fuel (mkJoined (mkIterMut l) L p) = joined_run fuel (mkJoined (mkIter l) L p).
Proof.
  revert l p. induction fuel as [|fuel IH]; intros l p; [reflexivity|].
  simpl joined_run. unfold joined_step. simpl pos. simpl len. simpl iter.
  destruct (p <? L); [|reflexivity].
  simpl may_skip. cbv beta iota.
  destruct (usize_add p (N.of_nat (count_leading_none l))) as [p1|]; [|reflexivity].
  simpl nth.
  pose proof (IterMut_nth_Iter_nth l (N.of_nat (count_leading_none l))) as [E1 E2].
  destruct (IterMut_nth (mkIterMut l) (N.of_nat (count_leading_none l))) as [[l1] r1].
  destruct (Iter_nth (mkIter l) (N.of_nat (count_leading_none l))) as [[l2] r2].
  simpl in E1, E2. subst l1 r1.
  destruct r2 as [x|].
  - rewrite IH. reflexivity.
  - destruct (usize_add p1 1); [apply IH|reflexivity].
Qed.

Lemma run_sparse_mut {V} (rem : smap V) (q L p : N) :
  sm_sorted rem = true ->
  (forall k, In k (map fst rem) -> p <= k) ->
  match rem with [] => L <= p | _ => sm_last_key rem = Some L /\ p < L end ->
  L <= USIZE_MAX ->
  exists f0, joined_run f0 (mkJoined (mkSparseIterMut rem q) L p)
    = match sm_get USIZE_MAX rem with
      | None => (map snd rem, Done)
      | Some _ => (map snd (removelast rem), Panicked)
      end.
Proof.
  revert q p. induction rem as [|[k v] t IH]; intros q p Hs Hp Hl Hmax.
  - exists 1%nat. simpl joined_run. unfold joined_step. simpl pos. simpl len.
    destruct (N.ltb_spec p L); [lia|reflexivity].
  - destruct Hl as [HL Hlt].
    assert (HpK : p <= k) by (apply Hp; simpl; left; reflexivity).
    assert (HkL : k <= L).
    { apply sm_last_key_in in HL. simpl in HL. destruct HL as [->|Hin]; [lia|].
      pose proof (sm_sorted_head_lt k v t Hs L Hin). lia. }
    assert (Ht : sm_sorted t = true) by exact (sm_sorted_tail k v t Hs).
    assert (Hgt : forall k', In k' (map fst t) -> k < k') by exact (sm_sorted_head_lt k v t Hs).
    assert (Ep : usize_add p (k - p) = Some k).
    { unfold usize_add. destruct (N.leb_spec (p + (k - p)) USIZE_MAX); [f_equal; lia|lia]. }
    destruct (N.eqb_spec k USIZE_MAX) as [Hkm|Hkm].
    + (* the key [usize::MAX]: [next] takes it, then [position += 1] panics *)
      assert (Et : t = []).
      { destruct t as [|[k1 v1] t']; [reflexivity|]. exfalso.
        pose proof (Hgt k1 (or_introl eq_refl)).
        rewrite sm_last_key_cons in HL by discriminate.
        pose proof (sm_last_key_max _ _ Ht HL k1 (or_introl eq_refl)). lia. }
      subst t.
      assert (E1 : usize_add k 1 = None).
      { unfold usize_add. destruct (N.leb_spec (k + 1) USIZE_MAX); [lia|reflexivity]. }
      exists 1%nat.
      simpl joined_run. unfold joined_step. simpl pos. simpl len. simpl iter.
      destruct (N.ltb_spec p L); [|lia].
      simpl may_skip. unfold SparseIterMut_may_skip. simpl peekable.
      cbv beta iota. rewrite (proj2 (N.leb_le p k) HpK).
      rewrite Ep. simpl nth. unfold SparseIterMut_nth, SparseIterMut_next. simpl.
      rewrite Ep. simpl. rewrite N.ltb_irrefl, N.eqb_refl, E1.
      rewrite Hkm, N.eqb_refl. reflexivity.
    + assert (Hl' : match t with [] => L <= k | _ => sm_last_key t = Some L /\ k < L end).
      { destruct t as [|[k1 v1] t'].
        - simpl in HL. injection HL as ->. lia.
        - rewrite sm_last_key_cons in HL by discriminate. split; [exact HL|].
          apply Hgt, sm_last_key_in, HL. }
      destruct (IH (k + 1) k Ht (fun k' H => N.lt_le_incl _ _ (Hgt k' H)) Hl' Hmax) as [f Hf].
      assert (E1 : usize_add k 1 = Some (k + 1)).
      { unfold usize_add. destruct (N.leb_spec (k + 1) USIZE_MAX); [reflexivity|lia]. }
      exists (S f).
      simpl joined_run. unfold joined_step. simpl pos. simpl len. simpl iter.
      destruct (N.ltb_spec p L); [|lia].
      simpl may_skip. unfold SparseIterMut_may_skip. simpl peekable.
      cbv beta iota. rewrite (proj2 (N.leb_le p k) HpK).
      rewrite Ep. simpl nth. unfold SparseIterMut_nth, SparseIterMut_next. simpl.
      rewrite Ep. simpl. rewrite N.ltb_irrefl, N.eqb_refl, E1. rewrite Hf.
      cbn [sm_get]. rewrite (proj2 (N.eqb_neq k USIZE_MAX) Hkm).
      destruct (sm_get USIZE_MAX t) eqn:Eg; [|reflexivity].
      destruct t as [|e t']; [discriminate|reflexivity].
Qed.

Lemma count_leading_some_stop {V} (sl : list (option V)) :
  (count_leading_some sl < length sl)%nat -> nth_error sl (count_leading_some sl) = Some None.
Proof.
  induction sl as [|[x|] t IH]; simpl; intros H; [lia| |reflexivity].
  apply IH. lia.
Qed.

Lemma run_negated_dense {V} (fuel : nat) (sl : list (option V)) (p : N) :
  p + N.of_nat (length sl) < USIZE_MAX ->
  joined_run fuel (mkJoined (mkNegatedIter (mkIter sl)) USIZE_MAX p) = (repeat tt fuel, Running).
Proof.
  revert sl p. induction fuel as [|fuel IH]; intros sl p Hl; [reflexivity|].
  simpl joined_run. unfold joined_step. simpl pos. simpl len. simpl iter.
  destruct (N.ltb_spec p USIZE_MAX); [|lia].
  simpl may_skip. cbv beta iota.
  pose proof (count_leading_some_le sl) as Hle.
  set (k := count_leading_some sl) in *.
  assert (Ep : usize_add p (N.of_nat k) = Some (p + N.of_nat k)).
  { unfold usize_add. destruct (N.leb_spec (p + N.of_nat k) USIZE_MAX); [reflexivity|lia]. }
  rewrite Ep. simpl nth. unfold Iter_nth. simpl slice.
  destruct (N.ltb_spec (N.of_nat k) (N.of_nat (length sl))) as [Hin|Hout].
  - assert (Ek : nth_error sl k = Some None) by (apply count_leading_some_stop; lia).
    rewrite Nat2N.id, Ek.
    rewrite IH; [reflexivity|]. rewrite length_skipn. lia.
  - rewrite IH; [reflexivity|]. simpl. lia.
Qed.

(** * Further properties *)

(** X1. [Storage::insert] stores the component at its entity, returns
    what [get] returned there before, and leaves every other entity's
    component as it was. *)
Theorem dense_insert_get {V} (s : Storage V) (idx : Entity) (c : V) :
  Dense.get (fst (Dense.insert s idx c)) idx = Some c /\
  snd (Dense.insert s idx c) = Dense.get s idx /\
  (forall j, j <> idx -> Dense.get (fst (Dense.insert s idx c)) j = Dense.get s j).
Proof.
  destruct (dense_get_insert_same s idx c) as [H1 H2].
  split; [exact H1|]. split; [exact H2|]. apply dense_get_insert_other.
Qed.

(** X2. [Storage::remove] returns what [get] returned at the entity,
    leaves no component there, and keeps every other entity's component. *)
Theorem dense_remove_get {V} (s : Storage V) (idx : Entity) :
  Dense.get (fst (Dense.remove s idx)) idx = None /\
  snd (Dense.remove s idx) = Dense.get s idx /\
  (forall j, j <> idx -> Dense.get (fst (Dense.remove s idx)) j = Dense.get s j).
Proof.
  destruct (dense_get_remove_same s idx) as [H1 H2].
  split; [exact H1|]. split; [exact H2|]. apply dense_get_remove_other.
Qed.

(** X3. The slot vector of a dense storage only grows: [insert] makes it
    [max(len, idx + 1)] long and [remove] keeps its length, also for an
    entity out of range. *)
Theorem dense_slot_length {V} (s : Storage V) (idx : Entity) (c : V) :
  length (inner (fst (Dense.insert s idx c))) = Nat.max (length (inner s)) (N.to_nat idx + 1) /\
  length (inner (fst (Dense.remove s idx))) = length (inner s).
Proof.
  split.
  - destruct (dense_insert_grown s idx) as [Hl _]. revert Hl. cbv zeta.
    unfold Dense.insert.
    set (l' := if N.of_nat (length (inner s)) <=? idx then _ else _).
    intros Hl. pose proof (replace_at_length l' (N.to_nat idx) (Some c)) as E.
    destruct (replace_at l' (N.to_nat idx) (Some c)). simpl in *. congruence.
  - unfold Dense.remove.
    pose proof (replace_at_length (inner s) (N.to_nat idx) None) as E.
    destruct (replace_at (inner s) (N.to_nat idx) None). exact E.
Qed.

(** X4. [Storage::clear] removes every component but keeps the slot
    vector's length. *)
Theorem dense_clear_empties {V} (s : Storage V) :
  (forall j, Dense.get (Dense.clear s) j = None) /\
  length (inner (Dense.clear s)) = length (inner s).
Proof.
  split; [apply dense_get_clear|]. unfold Dense.clear. simpl. apply length_map.
Qed.

(** X5. [SparseStorage::insert] and [SparseStorage::remove] keep the keys
    of the map strictly ascending. *)
Theorem sparse_ops_keep_sorted {V} (t : SparseStorage V) (idx : Entity) (c : V)
  (Hs : sm_sorted (sinner t) = true) :
  sm_sorted (sinner (fst (Sparse.insert t idx c))) = true /\
  sm_sorted (sinner (fst (Sparse.remove t idx))) = true.
Proof.
  unfold Sparse.insert, Sparse.remove.
  pose proof (sm_insert_sorted idx c (sinner t) Hs) as H1.
  pose proof (sm_remove_sorted idx (sinner t) Hs) as H2.
  destruct (sm_insert idx c (sinner t)). destruct (sm_remove idx (sinner t)).
  split; assumption.
Qed.

(** X6. On a sorted map, [SparseStorage::insert] stores the component,
    returns what [get] returned before, and keeps every other entity's
    component. *)
Theorem sparse_insert_get {V} (t : SparseStorage V) (idx : Entity) (c : V)
  (Hs : sm_sorted (sinner t) = true) :
  Sparse.get (fst (Sparse.insert t idx c)) idx = Some c /\
  snd (Sparse.insert t idx c) = Sparse.get t idx /\
  (forall j, j <> idx -> Sparse.get (fst (Sparse.insert t idx c)) j = Sparse.get t j).
Proof.
  unfold Sparse.insert, Sparse.get.
  pose proof (sm_get_insert_same idx c (sinner t)) as H1.
  pose proof (sm_insert_old idx c (sinner t) Hs) as H2.
  pose proof (fun j => sm_get_insert_other (sinner t) idx j c) as H3.
  destruct (sm_insert idx c (sinner t)). simpl in *.
  split; [exact H1|]. split; [exact H2|exact H3].
Qed.

(** X7. On a sorted map, [SparseStorage::remove] returns what [get]
    returned, leaves no component at the entity, and keeps the others. *)
Theorem sparse_remove_get {V} (t : SparseStorage V) (idx : Entity)
  (Hs : sm_sorted (sinner t) = true) :
  Sparse.get (fst (Sparse.remove t idx)) idx = None /\
  snd (Sparse.remove t idx) = Sparse.get t idx /\
  (forall j, j <> idx -> Sparse.get (fst (Sparse.remove t idx)) j = Sparse.get t j).
Proof.
  unfold Sparse.remove, Sparse.get.
  pose proof (sm_get_remove_same idx (sinner t) Hs) as H1.
  pose proof (sm_remove_old idx (sinner t)) as H2.
  pose proof (sm_get_remove_other (sinner t) idx) as H3.
  destruct (sm_remove idx (sinner t)). simpl in *.
  split; [exact H1|]. split; [exact H2|exact H3].
Qed.

(** X8. Every sparse storage reached from [SparseStorage::new] by
    inserts, removes, gets and clears has strictly ascending keys. *)
Theorem sparse_run_sorted {V} (ops : list (op V)) :
  sm_sorted (sinner (fst (sparse_run ops Sparse.new))) = true.
Proof.
  apply (run_agree ops Dense.new Sparse.new eq_refl).
  intros k. unfold Dense.get, Sparse.get. simpl. rewrite nth_error_nil. reflexivity.
Qed.

(** X9. Started empty, a dense and a sparse storage given the same
    sequence of operations return the same results and end up holding the
    same component for every entity. *)
Theorem dense_sparse_ops_agree {V} (ops : list (op V)) :
  snd (dense_run ops Dense.new) = snd (sparse_run ops Sparse.new) /\
  (forall k, Dense.get (fst (dense_run ops Dense.new)) k =
             Sparse.get (fst (sparse_run ops Sparse.new)) k).
Proof.
  assert (H0 : forall k, Dense.get (V:=V) Dense.new k = Sparse.get Sparse.new k).
  { intros k. unfold Dense.get, Sparse.get. simpl. rewrite nth_error_nil. reflexivity. }
  destruct (run_agree ops Dense.new Sparse.new eq_refl H0) as [H1 [_ H3]].
  split; assumption.
Qed.

(** X10. Joining a single dense storage (shorter than [usize::MAX]) yields
    its components in ascending entity order, each once, and then ends. *)
Theorem dense_join_yields_present {V} (s : Storage V)
  (Hl : N.of_nat (length (inner s)) < USIZE_MAX) :
  exists f0, forall fuel, (f0 <= fuel)%nat ->
    join_run (I := V) fuel s = (present_values (inner s), Done).
Proof.
  destruct (run_dense_single (inner s) 0 (N.of_nat (length (inner s))) ltac:(lia) Hl)
    as [f0 Hf]. exists f0. intros fuel Hle.
  unfold join_run, join, Joinable_Storage, Joined_new.
  replace fuel with (f0 + (fuel - f0))%nat by lia.
  apply joined_run_done_more, Hf.
Qed.

(** X11. [Drain::nth(n)] removes the components at the [n + 1] entities
    from its cursor on, returns the last of them, moves the cursor past
    them, and leaves every other entity's component in place. *)
Theorem dense_drain_nth {V} (d : Drain V) (n : N) :
  let c := drain_next_id d in
  snd (Drain_nth d n) = Dense.get (drain_storage d) (c + n) /\
  drain_next_id (fst (Drain_nth d n)) = c + n + 1 /\
  (forall k, Dense.get (drain_storage (fst (Drain_nth d n))) k =
             if (c <=? k) && (k <=? c + n) then None else Dense.get (drain_storage d) k).
Proof.
  cbv zeta. unfold Drain_nth.
  destruct (Drain_skip_spec d n) as [Hc Hg]. revert Hc Hg. cbv zeta.
  destruct (N.iter n (fun d => fst (Drain_next d)) d) as [s c'].
  simpl. intros Hc Hg. subst c'.
  unfold Drain_next. simpl.
  pose proof (dense_get_remove_same s (drain_next_id d + n)) as [Hr1 Hr2].
  pose proof (dense_get_remove_other s (drain_next_id d + n)) as Hr3.
  destruct (Dense.remove s (drain_next_id d + n)) as [s' o]. simpl in *.
  split.
  - rewrite Hr2, Hg. destruct (N.ltb_spec (drain_next_id d + n) (drain_next_id d + n)); [lia|].
    rewrite andb_false_r. reflexivity.
  - split; [reflexivity|]. intros k.
    destruct (N.eq_dec k (drain_next_id d + n)) as [->|Hne].
    + rewrite Hr1. destruct (N.leb_spec (drain_next_id d) (drain_next_id d + n)); [|lia].
      rewrite N.leb_refl. reflexivity.
    + rewrite (Hr3 k Hne), Hg.
      destruct (N.leb_spec (drain_next_id d) k), (N.ltb_spec k (drain_next_id d + n)),
        (N.leb_spec k (drain_next_id d + n)); simpl; try reflexivity; lia.
Qed.

(** X12. Unlike [Drain::nth], [SparseDrain::nth(n)] removes only the
    component at the entity [n] past its position [p]. When [p + n] is
    below [usize::MAX], it returns that component, moves the position to
    [p + n + 1], and every other entity keeps its component, the [n]
    skipped ones included. Otherwise one of its two [position +=]
    overflows and the call panics. *)
Theorem sparse_drain_nth {V} (d : SparseDrain V) (n : N)
  (Hs : sm_sorted (sdrain_map d) = true) :
  match SparseDrain_nth d n with
  | None => USIZE_MAX <= sdrain_position d + n
  | Some (d', r) =>
      sdrain_position d + n < USIZE_MAX /\
      r = sm_get (sdrain_position d + n) (sdrain_map d) /\
      sdrain_position d' = sdrain_position d + n + 1 /\
      (forall k, sm_get k (sdrain_map d') =
                 if k =? sdrain_position d + n then None else sm_get k (sdrain_map d))
  end.
Proof. exact (SparseDrain_nth_spec d n Hs). Qed.

(** X13. [Entities::join] yields the entities [0, 1, 2, ...], one per call
    of [next], and never returns [None]. After the entity
    [usize::MAX - 1], the next call panics: the range would step past
    [usize::MAX]. *)
Theorem entities_join_counts (fuel : nat) :
  join_run fuel EntitiesUnit
  = if N.of_nat fuel <=? USIZE_MAX then (map N.of_nat (seq 0 fuel), Running)
    else (map N.of_nat (seq 0 (N.to_nat USIZE_MAX)), Panicked).
Proof.
  pose proof (run_entities (N.to_nat USIZE_MAX) (N2Nat.id _) fuel 0 (Nat.le_0_l _)) as R.
  unfold join_run.
  change (join EntitiesUnit) with (mkJoined (mkEntitiesIter (N.of_nat 0)) USIZE_MAX 0).
  rewrite R, Nat.sub_0_r, Nat.add_0_l.
  replace (fuel <=? N.to_nat USIZE_MAX)%nat with (N.of_nat fuel <=? USIZE_MAX);
    [reflexivity|].
  destruct (Nat.leb_spec fuel (N.to_nat USIZE_MAX)), (N.leb_spec (N.of_nat fuel) USIZE_MAX);
    try reflexivity; lia.
Qed.

(** X14. Joining [maybe()] of a dense storage alone yields [get] of the
    entities [0, 1, 2, ...] in turn, [None] past the slot vector, and
    never ends. *)
Theorem maybe_dense_join {V} (s : Storage V) (fuel : nat) :
  join_run fuel (maybe s) = (map (fun i => Dense.get s (N.of_nat i)) (seq 0 fuel), Running).
Proof. destruct s as [sl]. exact (run_maybe_dense fuel sl). Qed.

(** X15. Joining [maybe()] of a sparse storage alone yields [get] of the
    entities [0, 1, 2, ...] in turn and never returns [None]. After the
    entity [usize::MAX - 1], the next call panics: the position of the
    [SparseIter] would step past [usize::MAX]. *)
Theorem maybe_sparse_join {V} (t : SparseStorage V) (fuel : nat) :
  join_run fuel (maybe t)
  = if N.of_nat fuel <=? USIZE_MAX
    then (map (fun i => Sparse.get t (N.of_nat i)) (seq 0 fuel), Running)
    else (map (fun i => Sparse.get t (N.of_nat i)) (seq 0 (N.to_nat USIZE_MAX)), Panicked).
Proof.
  destruct t as [m].
  pose proof (run_maybe_sparse (N.to_nat USIZE_MAX) (N2Nat.id _) fuel m 0 (Nat.le_0_l _)) as R.
  unfold join_run.
  change (join (maybe (mkSparse m)))
    with (mkJoined (mkMaybe (mkSparseIter m (N.of_nat 0))) USIZE_MAX 0).
  rewrite R, Nat.sub_0_r, Nat.add_0_l.
  replace (fuel <=? N.to_nat USIZE_MAX)%nat with (N.of_nat fuel <=? USIZE_MAX);
    [reflexivity|].
  destruct (Nat.leb_spec fuel (N.to_nat USIZE_MAX)), (N.leb_spec (N.of_nat fuel) USIZE_MAX);
    try reflexivity; lia.
Qed.

(** X16. The join over [&mut Storage] ([IterMut]) yields the same items
    as the join over [&Storage] ([Iter]), call for call. *)
Theorem dense_mut_join_same {V} (s : Storage V) (fuel : nat) :
  joined_run fuel (Storage_join_mut s) = join_run (I := V) fuel s.
Proof. exact (run_iter_mut fuel (inner s) _ 0). Qed.

(** X17. Unlike the join over [&SparseStorage], the join over
    [&mut SparseStorage] yields every component once, in ascending key
    order, and then ends, as long as the greatest key is not [0]: the
    peeked iterator consumes what it returns, so the position that
    [Joined::next] leaves in place is not read twice. A component at the
    key [usize::MAX] is the exception: [next] takes it, and the
    [position += 1] that follows panics. *)
Theorem sparse_mut_join_yields_all {V} (t : SparseStorage V)
  (Hs : sm_sorted (sinner t) = true)
  (Hk : forall k, In k (map fst (sinner t)) -> k <= USIZE_MAX)
  (H0 : sm_last_key (sinner t) <> Some 0) :
  exists f0, forall fuel, (f0 <= fuel)%nat ->
    joined_run fuel (join (sparse_mut t))
    = match Sparse.get t USIZE_MAX with
      | None => (map snd (sinner t), Done)
      | Some _ => (map snd (removelast (sinner t)), Panicked)
      end.
Proof.
  set (L := match sm_last_key (sinner t) with Some k => k | None => 0 end).
  assert (Hl : match sinner t with [] => L <= 0 | _ => sm_last_key (sinner t) = Some L /\ 0 < L end).
  { unfold L. destruct (sinner t) as [|e m] eqn:Em; [simpl; lia|].
    destruct (sm_last_key_some (e :: m) ltac:(discriminate)) as [k Ek].
    rewrite Ek. split; [reflexivity|].
    destruct (N.eq_dec k 0) as [->|]; [contradiction|lia]. }
  assert (Hmax : L <= USIZE_MAX).
  { unfold L. destruct (sm_last_key (sinner t)) as [k|] eqn:Ek; [|unfold USIZE_MAX; lia].
    apply Hk, sm_last_key_in, Ek. }
  destruct (run_sparse_mut (sinner t) 0 L 0 Hs (fun k _ => N.le_0_l k) Hl Hmax) as [f0 Hf].
  exists f0. intros fuel Hle.
  change (join (sparse_mut t)) with (SparseStorage_join_mut t).
  unfold SparseStorage_join_mut, Joined_new. fold L.
  replace fuel with (f0 + (fuel - f0))%nat by lia.
  unfold Sparse.get. revert Hf.
  destruct (sm_get USIZE_MAX (sinner t)); intros Hf;
    [apply joined_run_panicked_more, Hf|apply joined_run_done_more, Hf].
Qed.

(** X18. The join over a negated dense storage alone ([!&s]) yields [()]
    on every call of [next] and never ends: its bound is [usize::MAX] and
    past the slot vector every entity counts as absent. *)
Theorem negated_dense_join_unbounded {V} (s : Storage V)
  (Hl : N.of_nat (length (inner s)) < USIZE_MAX) (fuel : nat) :
  join_run fuel (neg s) = (repeat tt fuel, Running).
Proof. exact (run_negated_dense fuel (inner s) 0 Hl). Qed.

(** * Witnesses of the further properties *)

Lemma sparse_ops_keep_sorted_witness :
  sm_sorted (sinner (mkSparse [(1, 10); (3, 30)])) = true
  /\ sm_sorted (sinner (fst (Sparse.insert (mkSparse [(1, 10); (3, 30)]) 2 20))) = true
  /\ sm_sorted (sinner (fst (Sparse.remove (mkSparse [(1, 10); (3, 30)]) 2))) = true.
Proof.
  split; [reflexivity|].
  apply (sparse_ops_keep_sorted (mkSparse [(1, 10); (3, 30)]) 2 20). reflexivity.
Defined.

Lemma sparse_insert_get_witness :
  sm_sorted (sinner (mkSparse [(1, 10); (3, 30)])) = true
  /\ Sparse.get (fst (Sparse.insert (mkSparse [(1, 10); (3, 30)]) 3 20)) 3 = Some 20
  /\ snd (Sparse.insert (mkSparse [(1, 10); (3, 30)]) 3 20)
     = Sparse.get (mkSparse [(1, 10); (3, 30)]) 3
  /\ (forall j, j <> 3 ->
        Sparse.get (fst (Sparse.insert (mkSparse [(1, 10); (3, 30)]) 3 20)) j
        = Sparse.get (mkSparse [(1, 10); (3, 30)]) j).
Proof.
  split; [reflexivity|].
  apply (sparse_insert_get (mkSparse [(1, 10); (3, 30)]) 3 20). reflexivity.
Defined.

Lemma sparse_remove_get_witness :
  sm_sorted (sinner (mkSparse [(1, 10); (3, 30)])) = true
  /\ Sparse.get (fst (Sparse.remove (mkSparse [(1, 10); (3, 30)]) 1)) 1 = None
  /\ snd (Sparse.remove (mkSparse [(1, 10); (3, 30)]) 1)
     = Sparse.get (mkSparse [(1, 10); (3, 30)]) 1
  /\ (forall j, j <> 1 ->
        Sparse.get (fst (Sparse.remove (mkSparse [(1, 10); (3, 30)]) 1)) j
        = Sparse.get (mkSparse [(1, 10); (3, 30)]) j).
Proof.
  split; [reflexivity|].
  apply (sparse_remove_get (mkSparse [(1, 10); (3, 30)]) 1). reflexivity.
Defined.

Lemma dense_join_yields_present_witness :
  N.of_nat (length (inner (mkStorage [None; Some 7; None; Some 12]))) < USIZE_MAX
  /\ exists f0, forall fuel, (f0 <= fuel)%nat ->
       join_run (I := N) fuel (mkStorage [None; Some 7; None; Some 12])
       = (present_values [None; Some 7; None; Some 12], Done).
Proof.
  assert (H : N.of_nat (length (inner (mkStorage [None; Some 7; None; Some 12]))) < USIZE_MAX)
    by (vm_compute; reflexivity).
  split; [exact H|].
  exact (dense_join_yields_present (mkStorage [None; Some 7; None; Some 12]) H).
Defined.

Lemma sparse_drain_nth_witness :
  sm_sorted (sdrain_map (mkSparseDrain [(0, 5); (1, 10); (3, 30)] 0)) = true
  /\ (0 + 1 < USIZE_MAX /\
      Some 10 = sm_get (0 + 1) [(0, 5); (1, 10); (3, 30)] /\
      2 = 0 + 1 + 1 /\
      (forall k, sm_get k [(0, 5); (3, 30)] =
                 if k =? 0 + 1 then None else sm_get k [(0, 5); (1, 10); (3, 30)]))
  /\ sm_sorted (sdrain_map (mkSparseDrain [(0, 5); (USIZE_MAX, 9)] 1)) = true
  /\ USIZE_MAX <= 1 + (USIZE_MAX - 1).
Proof.
  assert (H1 : sm_sorted (sdrain_map (mkSparseDrain [(0, 5); (1, 10); (3, 30)] 0)) = true)
    by reflexivity.
  assert (H2 : sm_sorted (sdrain_map (mkSparseDrain [(0, 5); (USIZE_MAX, 9)] 1)) = true)
    by reflexivity.
  split; [exact H1|].
  split; [exact (sparse_drain_nth (mkSparseDrain [(0, 5); (1, 10); (3, 30)] 0) 1 H1)|].
  split; [exact H2|].
  exact (sparse_drain_nth (mkSparseDrain [(0, 5); (USIZE_MAX, 9)] 1) (USIZE_MAX - 1) H2).
Defined.

Lemma sparse_mut_join_yields_all_witness :
  sm_sorted (sinner (mkSparse [(0, 7); (USIZE_MAX, 12)])) = true
  /\ (forall k, In k (map fst (sinner (mkSparse [(0, 7); (USIZE_MAX, 12)]))) -> k <= USIZE_MAX)
  /\ sm_last_key (sinner (mkSparse [(0, 7); (USIZE_MAX, 12)])) <> Some 0
  /\ exists f0, forall fuel, (f0 <= fuel)%nat ->
       joined_run fuel (join (sparse_mut (mkSparse [(0, 7); (USIZE_MAX, 12)])))
       = ([7], Panicked).
Proof.
  assert (H1 : sm_sorted (sinner (mkSparse [(0, 7); (USIZE_MAX, 12)])) = true) by reflexivity.
  assert (H2 : forall k, In k (map fst (sinner (mkSparse [(0, 7); (USIZE_MAX, 12)])))
                         -> k <= USIZE_MAX).
  { simpl. intros k [<-|[<-|[]]]; vm_compute; discriminate. }
  assert (H3 : sm_last_key (sinner (mkSparse [(0, 7); (USIZE_MAX, 12)])) <> Some 0).
  { vm_compute. discriminate. }
  split; [exact H1|]. split; [exact H2|]. split; [exact H3|].
  exact (sparse_mut_join_yields_all (mkSparse [(0, 7); (USIZE_MAX, 12)]) H1 H2 H3).
Defined.

Lemma negated_dense_join_unbounded_witness :
  N.of_nat (length (inner (mkStorage [Some 7; None; Some 12]))) < USIZE_MAX
  /\ join_run 5 (neg (mkStorage [Some 7; None; Some 12])) = (repeat tt 5, Running).
Proof.
  assert (H : N.of_nat (length (inner (mkStorage [Some 7; None; Some 12]))) < USIZE_MAX)
    by (vm_compute; reflexivity).
  split; [exact H|].
  exact (negated_dense_join_unbounded (mkStorage [Some 7; None; Some 12]) H 5).
Defined.
